(** * rename-invoice-pdfs: the filename layer and the batch loop of [main.py]

    The development embeds [main.py] function by function.

    - Part 1: Python strings, [os.path.splitext], the three [re] patterns,
      [to_kebab_case] and [is_already_formatted].
    - Part 2: [pathlib] paths as far as the program uses them.
    - Part 3: the calls the program makes to the outside world (environment,
      file system, the two AI backends), as a small program monad with
      exceptions, and the functions of [main.py] written in it.
    - Part 4: the properties. *)

From Stdlib Require Import List NArith ZArith Bool Lia String Ascii.
From Stdlib Require Import DecimalString.
Import ListNotations.

Set Implicit Arguments.
Set Warnings "-notation-for-abbreviation".

(* ================================================================== *)
(** * Part 1. Strings *)
(* ================================================================== *)

(** A Python [str] is a sequence of Unicode code points. *)
Notation char := N (only parsing).
Notation str := (list N) (only parsing).

(** Code point of an ASCII character and of an ASCII literal. *)
Definition ch (a : ascii) : char := N_of_ascii a.
Definition u (s : string) : str := map N_of_ascii (list_ascii_of_string s).

Definition in_range (lo hi c : char) : bool := (lo <=? c)%N && (c <=? hi)%N.

Definition is_ascii (c : char) : bool := (c <? 128)%N.

Definition str_eqb (a b : str) : bool :=
  if list_eq_dec N.eq_dec a b then true else false.

(** What Python takes from the Unicode character database for code points
    outside ASCII.  The tables are not part of the repository; the
    development is parametric in them. *)
Record unicode := {
  (** [s.lower()] for a string [s] that holds a non-ASCII code point *)
  lower_nonascii : str -> str;
  (** membership in category Nd (what [\d] matches) for a non-ASCII code point *)
  decimal_nonascii : char -> bool;
  (** [c.isspace()] for a non-ASCII code point *)
  space_nonascii : char -> bool
}.

(** ** [str.lower], [str.strip] *)

Definition ascii_lower (c : char) : char :=
  if in_range (ch "A") (ch "Z") c then (c + 32)%N else c.

(** [s.lower()]: on an ASCII string the letters A-Z move to a-z and nothing
    else changes; any other string is lowered by the Unicode tables. *)
Definition lower (U : unicode) (s : str) : str :=
  if forallb is_ascii s then map ascii_lower s else lower_nonascii U s.

Fixpoint lstrip (chars : char -> bool) (s : str) : str :=
  match s with
  | [] => []
  | c :: s' => if chars c then lstrip chars s' else s
  end.

Fixpoint rstrip (chars : char -> bool) (s : str) : str :=
  match s with
  | [] => []
  | c :: s' =>
      match rstrip chars s' with
      | [] => if chars c then [] else [c]
      | t => c :: t
      end
  end.

(** [s.strip(chars)] *)
Definition strip (chars : char -> bool) (s : str) : str :=
  rstrip chars (lstrip chars s).

(** ASCII white space as [str.strip()] sees it: TAB, LF, VT, FF, CR,
    FS, GS, RS, US and the space. *)
Definition is_space (U : unicode) (c : char) : bool :=
  if is_ascii c
  then in_range 9%N 13%N c || in_range 28%N 31%N c || (c =? 32)%N
  else space_nonascii U c.

(** ** [os.path.splitext] (posixpath: separator [/], extension separator [.]) *)

(** [p.rfind(c)]: the highest index of [c] in [p], or [-1]. *)
Fixpoint rfind (c : char) (p : str) : Z :=
  match p with
  | [] => (-1)%Z
  | x :: q =>
      let r := rfind c q in
      if (0 <=? r)%Z then (r + 1)%Z
      else if (x =? c)%N then 0%Z else (-1)%Z
  end.

(** [p[i:j]] for [0 <= i] *)
Definition slice (i j : Z) (p : str) : str :=
  skipn (Z.to_nat i) (firstn (Z.to_nat j) p).

(** [genericpath._splitext]: the extension starts at the last dot of the last
    path component, unless only dots precede it in that component. *)
Definition splitext (p : str) : str * str :=
  let sepIndex := rfind (ch "/") p in
  let dotIndex := rfind (ch ".") p in
  if (sepIndex <? dotIndex)%Z then
    if existsb (fun c => negb (c =? ch ".")%N) (slice (sepIndex + 1) dotIndex p)
    then (firstn (Z.to_nat dotIndex) p, skipn (Z.to_nat dotIndex) p)
    else (p, [])
  else (p, []).

(** ** Character sets of the patterns *)

Definition is_digit09 (c : char) : bool := in_range (ch "0") (ch "9") c.

(** [[a-zA-Z0-9]] *)
Definition is_alnum (c : char) : bool :=
  in_range (ch "a") (ch "z") c || in_range (ch "A") (ch "Z") c || is_digit09 c.

(** [[a-z0-9]] *)
Definition is_lower_alnum (c : char) : bool :=
  in_range (ch "a") (ch "z") c || is_digit09 c.

Definition is_hyphen (c : char) : bool := (c =? ch "-")%N.

(** [\d] in a [str] pattern: the ASCII digits and the other decimal digits of
    Unicode. *)
Definition is_decimal (U : unicode) (c : char) : bool :=
  if is_ascii c then is_digit09 c else decimal_nonascii U c.

(** ** [re.sub] for the two shapes of pattern [to_kebab_case] uses *)

(** [re.sub(X, repl, s)] where [X] matches exactly one character, those of
    [cls]: every such character is replaced. *)
Definition re_sub_char (cls : char -> bool) (repl : str) (s : str) : str :=
  flat_map (fun c => if cls c then repl else [c]) s.

(** [re.sub(X+, repl, s)]: scanning from the left, each maximal run of
    characters of [cls] is one match and is replaced by [repl] once.
    [in_run] tells that the previous character belonged to a run. *)
Fixpoint re_sub_plus_from (cls : char -> bool) (repl : str)
    (in_run : bool) (s : str) : str :=
  match s with
  | [] => []
  | c :: s' =>
      if cls c
      then (if in_run then [] else repl) ++ re_sub_plus_from cls repl true s'
      else c :: re_sub_plus_from cls repl false s'
  end.

Definition re_sub_plus (cls : char -> bool) (repl : str) (s : str) : str :=
  re_sub_plus_from cls repl false s.

(** ** [to_kebab_case] *)

Definition to_kebab_case (U : unicode) (filename : str) : str :=
  (* Remove file extension *)
  let base_name := fst (splitext filename) in
  (* Replace spaces and special characters with hyphens *)
  let kebab := re_sub_char (fun c => negb (is_alnum c)) (u "-") base_name in
  (* Replace multiple consecutive hyphens with a single one *)
  let kebab := re_sub_plus is_hyphen (u "-") kebab in
  (* Remove leading and trailing hyphens *)
  let kebab := strip is_hyphen kebab in
  (* Convert to lowercase *)
  lower U kebab.

(** ** Regular expressions and [re.match] *)

Inductive re : Type :=
| Void                          (* matches nothing *)
| Eps                           (* the empty pattern *)
| Sym (p : char -> bool)        (* one character of a set *)
| Cat (r1 r2 : re)              (* r1 r2 *)
| Alt (r1 r2 : re)              (* r1|r2 *)
| Star (r : re).                (* r* *)

(** [r+], [r{n}], a literal string *)
Definition Plus (r : re) : re := Cat r (Star r).

Fixpoint Rep (n : nat) (r : re) : re :=
  match n with
  | O => Eps
  | S n' => Cat r (Rep n' r)
  end.

Fixpoint Lit (s : str) : re :=
  match s with
  | [] => Eps
  | c :: s' => Cat (Sym (N.eqb c)) (Lit s')
  end.

(** [^] at the head of a pattern given to [re.match]: the match starts at
    index 0, where [^] holds. *)
Definition Caret : re := Eps.

(** [$] at the end of a pattern given to [re.match] (no MULTILINE): the match
    may end at the end of the string, or just before a line feed that ends the
    string.  [re.match] leaves nothing else unread, so the whole string is the
    match followed by at most that line feed. *)
Definition Dollar : re := Alt Eps (Sym (N.eqb 10%N)).

Fixpoint nullable (r : re) : bool :=
  match r with
  | Void => false
  | Eps => true
  | Sym _ => false
  | Cat r1 r2 => nullable r1 && nullable r2
  | Alt r1 r2 => nullable r1 || nullable r2
  | Star _ => true
  end.

(** Brzozowski derivative: what is left of [r] after reading [c]. *)
Fixpoint deriv (c : char) (r : re) : re :=
  match r with
  | Void => Void
  | Eps => Void
  | Sym p => if p c then Eps else Void
  | Cat r1 r2 =>
      if nullable r1
      then Alt (Cat (deriv c r1) r2) (deriv c r2)
      else Cat (deriv c r1) r2
  | Alt r1 r2 => Alt (deriv c r1) (deriv c r2)
  | Star r1 => Cat (deriv c r1) (Star r1)
  end.

(** [bool(re.match(r, s))] for a pattern that ends in [$]: the whole of [s]
    is read. *)
Fixpoint re_match (r : re) (s : str) : bool :=
  match s with
  | [] => nullable r
  | c :: s' => re_match (deriv c r) s'
  end.

(** The words of a pattern, independently of the matcher. *)
Inductive lang : re -> str -> Prop :=
| lang_eps : lang Eps []
| lang_sym p c : p c = true -> lang (Sym p) [c]
| lang_cat r1 r2 s1 s2 : lang r1 s1 -> lang r2 s2 -> lang (Cat r1 r2) (s1 ++ s2)
| lang_alt_l r1 r2 s : lang r1 s -> lang (Alt r1 r2) s
| lang_alt_r r1 r2 s : lang r2 s -> lang (Alt r1 r2) s
| lang_star_nil r : lang (Star r) []
| lang_star_app r s1 s2 :
    lang r s1 -> lang (Star r) s2 -> lang (Star r) (s1 ++ s2).

(** ** [is_already_formatted] *)

(** [r'^(\d{6})-([a-z0-9]+-)*[a-z0-9]+\.pdf$'] *)
Definition pattern (U : unicode) : re :=
  Cat Caret
   (Cat (Rep 6 (Sym (is_decimal U)))
     (Cat (Lit (u "-"))
       (Cat (Star (Cat (Plus (Sym is_lower_alnum)) (Lit (u "-"))))
         (Cat (Plus (Sym is_lower_alnum))
           (Cat (Lit (u ".pdf")) Dollar))))).

Definition is_already_formatted (U : unicode) (filename : str) : bool :=
  re_match (pattern U) (lower U filename).

(* ================================================================== *)
(** * Part 2. Paths ([pathlib.PurePosixPath]) *)
(* ================================================================== *)

(** A parsed path: the root ([], [/] or [//]) and the components after it. *)
Record Path := { root : str; parts : list str }.

(** [s.split(sep)] for a one-character separator *)
Fixpoint split (sep : char) (s : str) : list str :=
  match s with
  | [] => [[]]
  | c :: s' =>
      if (c =? sep)%N then [] :: split sep s'
      else match split sep s' with
           | [] => [[c]]
           | w :: ws => (c :: w) :: ws
           end
  end.

(** [p[i:i+1] == '/'] *)
Definition sep_at (i : nat) (p : str) : bool :=
  match nth_error p i with
  | Some c => (c =? ch "/")%N
  | None => false
  end.

(** [posixpath.splitroot] without the drive, which is always empty: no
    leading slash, no root; exactly two leading slashes, the root [//];
    otherwise the root [/]. *)
Definition splitroot (p : str) : str * str :=
  if negb (sep_at 0 p) then ([], p)
  else if negb (sep_at 1 p) || sep_at 2 p then (u "/", skipn 1 p)
  else (firstn 2 p, skipn 2 p).

(** [Path(s)]: the root is split off, empty components and [.] are dropped. *)
Definition parse_path (s : str) : Path :=
  let (rt, rel) := splitroot s in
  {| root := rt;
     parts := filter (fun x => negb (str_eqb x []) && negb (str_eqb x (u ".")))
                     (split (ch "/") rel) |}.

(** [sep.join(xs)] *)
Fixpoint join (sep : str) (xs : list str) : str :=
  match xs with
  | [] => []
  | [x] => x
  | x :: xs' => x ++ sep ++ join sep xs'
  end.

(** [str(p)] *)
Definition path_str (p : Path) : str :=
  match root p ++ join (u "/") (parts p) with
  | [] => u "."
  | s => s
  end.

(** [p.name] *)
Definition name (p : Path) : str := last (parts p) [].

(** [p.parent] *)
Definition parent (p : Path) : Path :=
  match parts p with
  | [] => p
  | _ => {| root := root p; parts := removelast (parts p) |}
  end.

(** [p / s]: an absolute [s] replaces [p], a relative one is appended. *)
Definition joinpath (p : Path) (s : str) : Path :=
  let q := parse_path s in
  match root q with
  | [] => {| root := root p; parts := parts p ++ parts q |}
  | _ => q
  end.

(* ================================================================== *)
(** * Part 3. The program *)
(* ================================================================== *)

(** ** The outside world *)

(** An instance [e] of [Exception], given by [str(e)]. *)
Inductive exn : Type := Exception (message : str).

Definition message (e : exn) : str := let (m) := e in m.

(** A call returns or raises. *)
Definition result (A : Type) : Type := (A + exn)%type.

(** A [requests.Response] as far as the program reads it: [status_code], and
    what [response.json()['response']] yields: the string of that field, or
    the exception raised on the way to it (the body is not JSON, the field is
    missing, or its value has no [strip]). *)
Record Response := {
  status_code : Z;
  json_response : result str
}.

(** A content block of an Anthropic message: a text block, or a block of
    another class, which has no [text]. *)
Inductive block : Type :=
| TextBlock (text : str)
| OtherBlock (class : str).

Record Message := { content : list block }.

(** The client object [anthropic.Anthropic(...)] returns. *)
Inductive Client : Type := client_of_key (api_key : option str).

(** The calls of [main.py] that leave the program, each with the type of what
    it returns. *)
Inductive call : Type -> Type :=
| load_dotenv : call unit
| Anthropic (api_key : option str) : call Client
| Path_glob (directory : Path) (pat : str) : call (list Path)
| requests_get (url : str) (timeout : Z) : call Response
| requests_post (url : str) (model : option str) (prompt : str)
    (stream : bool) : call Response
| fitz_open (file_path : str) : call (list str)
    (* the pages of the document, each by its [get_text()] *)
| read_binary (pdf_file_path : str) : call (list N)
    (* [open(path, "rb")] and [f.read()]: the bytes of the file *)
| messages_create (ai_client : Client) (model : option str)
    (betas : list str) (max_tokens : Z) (data : str) (text : str)
    : call Message
| Path_rename (src dst : Path) : call unit.

(** ** Programs *)

(** A program returns, raises, prints a line, or makes a call; after a
    [print] and after a call it goes on with what came back: a value or an
    exception. *)
Inductive prog (A : Type) : Type :=
| Ret (a : A)
| Raise (e : exn)
| Out (line : str) (k : result unit -> prog A)
| Do (R : Type) (c : call R) (k : result R -> prog A).

Arguments Ret {A} a.
Arguments Raise {A} e.
Arguments Out {A} line k.
Arguments Do {A R} c k.

Fixpoint bind {A B : Type} (p : prog A) (f : A -> prog B) : prog B :=
  match p with
  | Ret a => f a
  | Raise e => Raise e
  | Out l k => Out l (fun r => bind (k r) f)
  | Do c k => Do c (fun r => bind (k r) f)
  end.

Declare Scope prog_scope.
Delimit Scope prog_scope with prog.
Notation "x <- p ;; q" := (bind p (fun x => q))
  (at level 61, p at next level, right associativity) : prog_scope.
Notation "p ;; q" := (bind p (fun _ => q))
  (at level 61, right associativity) : prog_scope.
Local Open Scope prog_scope.

(** A call whose exception propagates *)
Definition do {R : Type} (c : call R) : prog R :=
  Do c (fun r => match r with inl v => Ret v | inr e => Raise e end).

(** [print(line)]; an exception of [print] propagates like any other. *)
Definition print (line : str) : prog unit :=
  Out line (fun r => match r with inl v => Ret v | inr e => Raise e end).

Definition of_result {A : Type} (r : result A) : prog A :=
  match r with inl v => Ret v | inr e => Raise e end.

(** [try: p except Exception as e: h(e)]; a bare [except:] catches the same
    exceptions. *)
Fixpoint try_except {A : Type} (p : prog A) (h : exn -> prog A) : prog A :=
  match p with
  | Ret a => Ret a
  | Raise e => h e
  | Out l k => Out l (fun r => try_except (k r) h)
  | Do c k => Do c (fun r => try_except (k r) h)
  end.

(** [for x in xs: body(x)] *)
Fixpoint for_each {A : Type} (xs : list A) (body : A -> prog unit) : prog unit :=
  match xs with
  | [] => Ret tt
  | x :: xs' => body x ;; for_each xs' body
  end.

(** ** Runs *)

(** What a run leaves behind: the lines printed and the calls made, each call
    with its outcome. *)
Inductive event : Type :=
| Printed (line : str)
| Called (R : Type) (c : call R) (r : result R).

Arguments Called {R} c r.

(** The world answers every call; the answer may depend on all that
    happened before. *)
Definition world : Type := forall R : Type, list event -> call R -> result R.

(** [run W p h]: the history after [p] ran in world [W] from history [h], and
    how [p] ended, in a run where every [print] succeeds. *)
Fixpoint run {A : Type} (W : world) (p : prog A) (h : list event)
    : list event * result A :=
  match p with
  | Ret a => (h, inl a)
  | Raise e => (h, inr e)
  | Out l k => run W (k (inl tt)) (h ++ [Printed l])
  | Do c k => let r := W _ h c in run W (k r) (h ++ [Called c r])
  end.

(** The standard output: whether [print(line)] returns or raises (an
    undecodable file name, a closed pipe), which may depend on all that
    happened before. *)
Definition stdout : Type := list event -> list N -> result unit.

(** [run_strict W S p h]: the run of [p] with the standard output [S].  A
    [print] that raises prints nothing and hands its exception to the
    program. *)
Fixpoint run_strict {A : Type} (W : world) (S : stdout) (p : prog A)
    (h : list event) : list event * result A :=
  match p with
  | Ret a => (h, inl a)
  | Raise e => (h, inr e)
  | Out l k =>
      match S h l with
      | inl _ => run_strict W S (k (inl tt)) (h ++ [Printed l])
      | inr e => run_strict W S (k (inr e)) h
      end
  | Do c k => let r := W _ h c in run_strict W S (k r) (h ++ [Called c r])
  end.

(** ** Formatting *)

(** [str(n)] for a natural number *)
Definition str_of_nat (n : nat) : str :=
  u (NilEmpty.string_of_uint (Nat.to_uint n)).

(** Line feed *)
Definition LF : str := [10%N].

(** [base64.b64encode(data).decode("utf-8")] *)
Definition b64_alphabet : str :=
  u "ABCDEFGHIJKLMNOPQRSTUVWXYZabcdefghijklmnopqrstuvwxyz0123456789+/".

Definition b64_digit (n : N) : char := nth (N.to_nat n) b64_alphabet 0%N.

Fixpoint b64encode (data : list N) : str :=
  match data with
  | [] => []
  | [a] =>
      [b64_digit (a / 4); b64_digit ((a mod 4) * 16); ch "="; ch "="]
  | [a; b] =>
      [b64_digit (a / 4); b64_digit ((a mod 4) * 16 + b / 16);
       b64_digit ((b mod 16) * 4); ch "="]
  | a :: b :: c :: rest =>
      [b64_digit (a / 4); b64_digit ((a mod 4) * 16 + b / 16);
       b64_digit ((b mod 16) * 4 + c / 64); b64_digit (c mod 64)]
      ++ b64encode rest
  end%N.

(** ** The functions of [main.py] *)

Section Main.

(** The Unicode tables of the interpreter. *)
Variable U : unicode.

(** The process environment as [load_dotenv()] leaves it.  The program reads
    it only after that call and never writes it. *)
Variable environ : str -> option str.

(** [os.getenv(key)] *)
Definition getenv (key : str) : option str := environ key.

(** Truth value of what [os.getenv] returns: [None] and the empty string are
    false. *)
Definition truthy (v : option str) : bool :=
  match v with
  | Some (_ :: _) => true
  | _ => false
  end.

(** [v + suffix] for [v] returned by [os.getenv]: [None + str] raises
    TypeError. *)
Definition getenv_plus (v : option str) (suffix : str) : prog str :=
  match v with
  | Some s => Ret (s ++ suffix)
  | None =>
      Raise (Exception
        (u "unsupported operand type(s) for +: 'NoneType' and 'str'"))
  end.

(** *** Ollama *)

Definition extract_pdf_text_for_ollama_ai (file_path : str) : prog str :=
  doc <- do (fitz_open file_path) ;;
  Ret (fold_left (fun pdf_text page => pdf_text ++ page) doc []).

Definition ollama_prompt (text : str) : str :=
  u "The following is the text of an invoice. Extract the **invoice date** only and return nothing but the invoice date in format YYMMDD."
  ++ LF ++ LF
  ++ u "--- BEGIN INVOICE TEXT ---" ++ LF
  ++ text ++ LF
  ++ u "--- END INVOICE TEXT ---".

Definition ask_ollama_for_date (text : str) (model : option str) : prog str :=
  let prompt := ollama_prompt text in
  url <- getenv_plus (getenv (u "OLLAMA_API_URL")) (u "/generate") ;;
  response <- do (requests_post url model prompt false) ;;
  field <- of_result (json_response response) ;;
  Ret (strip (is_space U) field).

Definition is_ollama_running : prog bool :=
  try_except
    (url <- getenv_plus (getenv (u "OLLAMA_API_URL")) (u "/version") ;;
     response <- do (requests_get url 2) ;;
     Ret (status_code response =? 200)%Z)
    (fun _ => Ret false).

(** *** Remote AI *)

Definition load_pdf_data_for_remote_ai (pdf_file_path : str) : prog str :=
  data <- do (read_binary pdf_file_path) ;;
  Ret (b64encode data).

Definition remote_question : str :=
  u "What's the invoice date of this document? Return nothing but the invoice date in format YYMMDD.".

(** [message.content[0].text] *)
Definition first_text (m : Message) : prog str :=
  match content m with
  | [] => Raise (Exception (u "list index out of range"))
  | TextBlock text :: _ => Ret text
  | OtherBlock class :: _ =>
      Raise (Exception
        (u "'" ++ class ++ u "' object has no attribute 'text'"))
  end.

Definition determine_invoice_date_remote_ai (ai_client : Client)
    (pdf_data : str) : prog str :=
  m <- do (messages_create ai_client (getenv (u "ANTHROPIC_MODEL"))
             [u "pdfs-2024-09-25"] 1024 pdf_data remote_question) ;;
  first_text m.

Definition get_remote_ai_client : prog Client :=
  do load_dotenv ;;
  do (Anthropic (getenv (u "ANTHROPIC_API_KEY"))).

(** *** General *)

Definition get_pdf_files (directory : str) : prog (list Path) :=
  let directory_path := parse_path directory in
  lower_case <- do (Path_glob directory_path (u "*.pdf")) ;;
  upper_case <- do (Path_glob directory_path (u "*.PDF")) ;;
  Ret (lower_case ++ upper_case).

(** [new_filename] and [new_path] of [rename_pdf_with_date] *)
Definition new_filename (filename invoice_date : str) : str :=
  invoice_date ++ u "-" ++ to_kebab_case U filename ++ u ".pdf".

Definition new_path (pdf_path : Path) (invoice_date : str) : Path :=
  let directory := parent pdf_path in
  let filename := name pdf_path in
  joinpath directory (new_filename filename invoice_date).

Definition rename_pdf_with_date (pdf_path : Path) (invoice_date : str)
    : prog unit :=
  let target := new_path pdf_path invoice_date in
  do (Path_rename pdf_path target) ;;
  print (u "Renamed: " ++ path_str pdf_path ++ u " -> " ++ path_str target).

(** The value of [ollama_is_available]: the two settings and then, only when
    both are set, the probe. *)
Definition ollama_is_available : prog bool :=
  if truthy (getenv (u "OLLAMA_API_URL")) then
    if truthy (getenv (u "OLLAMA_MODEL")) then is_ollama_running
    else Ret false
  else Ret false.

(** The date of one file, by the backend chosen for the run (the [if] of the
    loop body). *)
Definition invoice_date_of (available : bool) (client : Client)
    (pdf_path : Path) : prog str :=
  if available then
    text <- extract_pdf_text_for_ollama_ai (path_str pdf_path) ;;
    ask_ollama_for_date text (getenv (u "OLLAMA_MODEL"))
  else
    pdf_data <- load_pdf_data_for_remote_ai (path_str pdf_path) ;;
    determine_invoice_date_remote_ai client pdf_data.

Definition skip_line (pdf_path : Path) : str :=
  u "Skipping " ++ path_str pdf_path
  ++ u ": File already follows the required format".

Definition error_line (pdf_path : Path) (e : exn) : str :=
  u "Error processing " ++ path_str pdf_path ++ u ": " ++ message e.

(** The body of the [for] loop of [process_pdf_directory], [try] and
    [except] included. *)
Definition process_pdf_file (available : bool) (client : Client)
    (pdf_path : Path) : prog unit :=
  try_except
    (if is_already_formatted U (name pdf_path) then
       print (skip_line pdf_path)        (* continue *)
     else
       invoice_date <- invoice_date_of available client pdf_path ;;
       rename_pdf_with_date pdf_path invoice_date)
    (fun e => print (error_line pdf_path e)).

Definition process_pdf_directory (directory : str) : prog unit :=
  client <- get_remote_ai_client ;;
  pdf_files <- get_pdf_files directory ;;
  match pdf_files with
  | [] => print (u "No PDF files found in directory: " ++ directory)
  | _ =>
      print (u "Found " ++ str_of_nat (List.length pdf_files)
             ++ u " PDF files to process") ;;
      available <- ollama_is_available ;;
      for_each pdf_files (process_pdf_file available client)
  end.

End Main.

(* ================================================================== *)
(** * Part 4. Properties *)
(* ================================================================== *)

(** An interpreter without tables beyond ASCII, for closed examples. *)
Definition ascii_tables : unicode :=
  {| lower_nonascii := fun s => s;
     decimal_nonascii := fun _ => false;
     space_nonascii := fun _ => false |}.

(** ** Characters *)

(** [[a-z0-9-]] and [[a-zA-Z0-9-]] *)
Definition slug_char (c : char) : bool := is_lower_alnum c || is_hyphen c.
Definition kebab_char (c : char) : bool := is_alnum c || is_hyphen c.

Ltac char_cases :=
  unfold slug_char, kebab_char, is_lower_alnum, is_alnum, is_digit09,
    is_hyphen, is_ascii, ascii_lower, in_range, ch in *;
  simpl N_of_ascii in *;
  repeat match goal with
    | |- context [N.leb ?a ?b] => destruct (N.leb_spec a b)
    | |- context [N.ltb ?a ?b] => destruct (N.ltb_spec a b)
    | |- context [N.eqb ?a ?b] => destruct (N.eqb_spec a b)
    | H : context [N.leb ?a ?b] |- _ => destruct (N.leb_spec a b)
    | H : context [N.ltb ?a ?b] |- _ => destruct (N.ltb_spec a b)
    | H : context [N.eqb ?a ?b] |- _ => destruct (N.eqb_spec a b)
    end;
  simpl in *; try congruence; try lia.

Lemma kebab_char_ascii c : kebab_char c = true -> is_ascii c = true.
Proof. char_cases. Qed.

Lemma kebab_char_lower c : kebab_char c = true -> slug_char (ascii_lower c) = true.
Proof. char_cases. Qed.

Lemma hyphen_lower c : is_hyphen (ascii_lower c) = is_hyphen c.
Proof. char_cases. Qed.

Lemma slug_char_lower c : slug_char c = true -> ascii_lower c = c.
Proof. char_cases. Qed.

Lemma slug_char_kebab c : slug_char c = true -> kebab_char c = true.
Proof. char_cases. Qed.

Lemma slug_char_split c :
  slug_char c = true -> is_hyphen c = false -> is_lower_alnum c = true.
Proof. char_cases. Qed.

Lemma lower_alnum_not_hyphen c : is_lower_alnum c = true -> is_hyphen c = false.
Proof. char_cases. Qed.

Lemma alnum_not_hyphen c : is_alnum c = true -> is_hyphen c = false.
Proof. char_cases. Qed.

Lemma hyphen_eq c : is_hyphen c = true -> c = ch "-".
Proof. char_cases. Qed.

Lemma slug_char_not_dot c : slug_char c = true -> (c =? ch ".")%N = false.
Proof. char_cases. Qed.

Lemma slug_char_not_sep c : slug_char c = true -> (c =? ch "/")%N = false.
Proof. char_cases. Qed.

Lemma digit_slug_char c : is_digit09 c = true -> is_lower_alnum c = true.
Proof. char_cases. Qed.

(** ** Shape of a string: hyphens at the ends, doubled hyphens *)

Definition starts_hyphen (s : str) : bool :=
  match s with
  | c :: _ => is_hyphen c
  | [] => false
  end.

Fixpoint ends_hyphen (s : str) : bool :=
  match s with
  | [] => false
  | [c] => is_hyphen c
  | _ :: t => ends_hyphen t
  end.

Fixpoint no_double_hyphen (s : str) : bool :=
  match s with
  | c :: t => negb (is_hyphen c && starts_hyphen t) && no_double_hyphen t
  | [] => true
  end.

Lemma ends_hyphen_last t c : ends_hyphen (t ++ [c]) = is_hyphen c.
Proof.
  induction t as [|x t IH]; simpl; [reflexivity|].
  destruct (t ++ [c]) eqn:E; [destruct t; discriminate | exact IH].
Qed.

Lemma no_double_hyphen_app_l a b :
  no_double_hyphen (a ++ b) = true -> no_double_hyphen a = true.
Proof.
  induction a as [|x a IH]; simpl; [reflexivity|].
  rewrite !andb_true_iff. intros [H1 H2]. split; [|auto].
  destruct a; simpl in *; [now rewrite andb_false_r | exact H1].
Qed.

Lemma no_double_hyphen_app_r a b :
  no_double_hyphen (a ++ b) = true -> no_double_hyphen b = true.
Proof.
  induction a as [|x a IH]; simpl; [auto|].
  rewrite andb_true_iff. intros [_ H]. auto.
Qed.

Lemma double_hyphen_inside a b :
  no_double_hyphen (a ++ u "--" ++ b) = false.
Proof.
  induction a as [|x a IH]; [reflexivity|].
  change (no_double_hyphen ((x :: a) ++ u "--" ++ b))
    with (negb (is_hyphen x && starts_hyphen (a ++ u "--" ++ b))
          && no_double_hyphen (a ++ u "--" ++ b)).
  rewrite IH. apply andb_false_r.
Qed.

(** ** The stages of [to_kebab_case] *)

Lemma re_sub_char_kebab s :
  forallb kebab_char (re_sub_char (fun c => negb (is_alnum c)) (u "-") s) = true.
Proof.
  induction s as [|c s IH]; simpl; [reflexivity|].
  rewrite forallb_app, IH, andb_true_r.
  unfold kebab_char. destruct (is_alnum c) eqn:E; simpl; [now rewrite E | reflexivity].
Qed.

Lemma re_sub_plus_kebab b s :
  forallb kebab_char s = true ->
  forallb kebab_char (re_sub_plus_from is_hyphen (u "-") b s) = true.
Proof.
  revert b. induction s as [|c s IH]; intros b; simpl; [reflexivity|].
  rewrite andb_true_iff. intros [Hc Hs].
  destruct (is_hyphen c) eqn:E.
  - rewrite forallb_app, IH by assumption. now destruct b.
  - simpl. now rewrite Hc, IH.
Qed.

Lemma re_sub_plus_shape b s :
  let r := re_sub_plus_from is_hyphen (u "-") b s in
  no_double_hyphen r = true /\ (b = true -> starts_hyphen r = false).
Proof.
  revert b. induction s as [|c s IH]; intros b; simpl; [auto|].
  destruct (is_hyphen c) eqn:E.
  - destruct (IH true) as [N S]. specialize (S eq_refl).
    destruct b; simpl; [auto|].
    rewrite S, N. split; [reflexivity | discriminate].
  - destruct (IH false) as [N _]. simpl. rewrite E, N. auto.
Qed.

Lemma lstrip_suffix P s : exists t, s = t ++ lstrip P s.
Proof.
  induction s as [|c s [t IH]]; simpl; [now exists []|].
  destruct (P c); [|now exists []].
  exists (c :: t). simpl. now f_equal.
Qed.

Lemma lstrip_starts s : starts_hyphen (lstrip is_hyphen s) = false.
Proof.
  induction s as [|c s IH]; simpl; [reflexivity|].
  destruct (is_hyphen c) eqn:E; [exact IH | exact E].
Qed.

Lemma rstrip_prefix P s : exists t, s = rstrip P s ++ t.
Proof.
  induction s as [|c s [t IH]]; simpl; [now exists []|].
  destruct (rstrip P s) as [|d r] eqn:E.
  - destruct (P c); [now exists (c :: s) | exists s; reflexivity].
  - exists t. simpl. now f_equal.
Qed.

Lemma rstrip_ends s : ends_hyphen (rstrip is_hyphen s) = false.
Proof.
  induction s as [|c s IH]; simpl; [reflexivity|].
  destruct (rstrip is_hyphen s) as [|d r] eqn:E.
  - destruct (is_hyphen c) eqn:Ec; simpl; [reflexivity | exact Ec].
  - exact IH.
Qed.

Lemma rstrip_starts P s :
  starts_hyphen s = false -> starts_hyphen (rstrip P s) = false.
Proof.
  destruct s as [|c s]; simpl; [auto|]. intros H.
  destruct (rstrip P s); [destruct (P c); simpl; auto | exact H].
Qed.

Lemma forallb_app_l (P : char -> bool) a b :
  forallb P (a ++ b) = true -> forallb P a = true.
Proof. rewrite forallb_app, andb_true_iff. tauto. Qed.

Lemma forallb_app_r (P : char -> bool) a b :
  forallb P (a ++ b) = true -> forallb P b = true.
Proof. rewrite forallb_app, andb_true_iff. tauto. Qed.

Lemma strip_shape s :
  forallb kebab_char s = true -> no_double_hyphen s = true ->
  let r := strip is_hyphen s in
  forallb kebab_char r = true /\ no_double_hyphen r = true
  /\ starts_hyphen r = false /\ ends_hyphen r = false.
Proof.
  intros F N r. subst r. unfold strip.
  destruct (lstrip_suffix is_hyphen s) as [t Et].
  destruct (rstrip_prefix is_hyphen (lstrip is_hyphen s)) as [t' Et'].
  rewrite Et in F, N.
  apply forallb_app_r in F. apply no_double_hyphen_app_r in N.
  rewrite Et' in F, N.
  apply forallb_app_l in F. apply no_double_hyphen_app_l in N.
  repeat split; auto using rstrip_ends, rstrip_starts, lstrip_starts.
Qed.

Lemma lower_ascii U s :
  forallb kebab_char s = true -> lower U s = map ascii_lower s.
Proof.
  intros F. unfold lower.
  replace (forallb is_ascii s) with true; [reflexivity|].
  symmetry. rewrite forallb_forall in *. auto using kebab_char_ascii.
Qed.

Lemma map_lower_shape s :
  forallb kebab_char s = true ->
  let r := map ascii_lower s in
  forallb slug_char r = true
  /\ no_double_hyphen r = no_double_hyphen s
  /\ starts_hyphen r = starts_hyphen s
  /\ ends_hyphen r = ends_hyphen s.
Proof.
  induction s as [|c s IH]; simpl; [auto|].
  rewrite andb_true_iff. intros [Hc Hs].
  destruct (IH Hs) as (F & N & S & E).
  rewrite kebab_char_lower, F, N, S, hyphen_lower by assumption.
  repeat split.
  destruct s; simpl in *; [reflexivity | exact E].
Qed.

(** The shape of a canonical slug, as booleans. *)
Definition slug_shape (s : str) : Prop :=
  forallb slug_char s = true /\ no_double_hyphen s = true
  /\ starts_hyphen s = false /\ ends_hyphen s = false.

Lemma to_kebab_case_shape U f : slug_shape (to_kebab_case U f).
Proof.
  unfold to_kebab_case, re_sub_plus.
  set (s1 := re_sub_char _ _ _).
  assert (F1 : forallb kebab_char s1 = true) by apply re_sub_char_kebab.
  set (s2 := re_sub_plus_from _ _ _ s1).
  assert (F2 : forallb kebab_char s2 = true) by now apply re_sub_plus_kebab.
  destruct (re_sub_plus_shape false s1) as [N2 _]. fold s2 in N2.
  destruct (strip_shape s2 F2 N2) as (F3 & N3 & S3 & E3).
  rewrite lower_ascii by assumption.
  destruct (map_lower_shape _ F3) as (F & N & S & E).
  unfold slug_shape. now rewrite F, N, S, E.
Qed.

Lemma starts_hyphen_cons t : starts_hyphen (ch "-" :: t) = true.
Proof. reflexivity. Qed.

(** C3. For every input string [f], [to_kebab_case f] contains only
    characters of [[a-z0-9-]], neither starts nor ends with a hyphen, and
    contains no [--]. *)
Theorem to_kebab_case_output_invariant (U : unicode) (f : str) :
  let k := to_kebab_case U f in
  Forall (fun c => is_lower_alnum c = true \/ c = ch "-") k
  /\ (forall t, k <> ch "-" :: t)
  /\ (forall t, k <> t ++ [ch "-"])
  /\ (forall a b, k <> a ++ u "--" ++ b).
Proof.
  intros k. destruct (to_kebab_case_shape U f) as (F & N & S & E).
  fold k in F, N, S, E. repeat split.
  - apply Forall_forall. intros c Hc.
    rewrite forallb_forall in F. specialize (F c Hc).
    unfold slug_char in F. apply orb_true_iff in F.
    destruct F as [F|F]; [left; exact F | right; now apply hyphen_eq].
  - intros t Ht. rewrite Ht in S. discriminate.
  - intros t Ht. rewrite Ht, ends_hyphen_last in E. discriminate.
  - intros a b Ht. rewrite Ht, double_hyphen_inside in N. discriminate.
Qed.

(** ** A slug is a fixed point of the stages after [splitext] *)

Lemma re_sub_char_id s :
  forallb slug_char s = true ->
  re_sub_char (fun c => negb (is_alnum c)) (u "-") s = s.
Proof.
  induction s as [|c s IH]; simpl; [reflexivity|].
  rewrite andb_true_iff. intros [Hc Hs]. rewrite (IH Hs).
  destruct (is_alnum c) eqn:A; simpl; [reflexivity|].
  f_equal. symmetry. apply hyphen_eq. revert Hc A. char_cases.
Qed.

Lemma re_sub_plus_id b s :
  no_double_hyphen s = true -> (b = true -> starts_hyphen s = false) ->
  re_sub_plus_from is_hyphen (u "-") b s = s.
Proof.
  revert b. induction s as [|c s IH]; intros b; simpl; [reflexivity|].
  rewrite andb_true_iff. intros [H1 H2] Hb.
  destruct (is_hyphen c) eqn:E.
  - destruct b; [now specialize (Hb eq_refl)|].
    simpl in H1. apply negb_true_iff in H1.
    rewrite IH by auto. simpl. f_equal. symmetry. now apply hyphen_eq.
  - rewrite IH; [reflexivity | assumption | discriminate].
Qed.

Lemma lstrip_id s : starts_hyphen s = false -> lstrip is_hyphen s = s.
Proof. destruct s as [|c s]; simpl; [reflexivity|]. now intros ->. Qed.

Lemma rstrip_id s : ends_hyphen s = false -> rstrip is_hyphen s = s.
Proof.
  induction s as [|c s IH]; simpl; [reflexivity|].
  destruct s as [|d s'].
  - simpl. now intros ->.
  - intros H. rewrite (IH H). reflexivity.
Qed.

Lemma map_lower_id s : forallb slug_char s = true -> map ascii_lower s = s.
Proof.
  induction s as [|c s IH]; simpl; [reflexivity|].
  rewrite andb_true_iff. intros [Hc Hs].
  now rewrite slug_char_lower, IH.
Qed.

Lemma forallb_slug_kebab s :
  forallb slug_char s = true -> forallb kebab_char s = true.
Proof.
  rewrite !forallb_forall. auto using slug_char_kebab.
Qed.

(** ** [splitext] on a slug and on a slug followed by [.pdf] *)

Lemma rfind_absent c p :
  forallb (fun x => negb (x =? c)%N) p = true -> rfind c p = (-1)%Z.
Proof.
  induction p as [|x p IH]; simpl; [reflexivity|].
  rewrite andb_true_iff. intros [Hx Hp]. rewrite (IH Hp). simpl.
  apply negb_true_iff in Hx. now rewrite Hx.
Qed.

Lemma rfind_app c a b :
  (0 <= rfind c b)%Z ->
  rfind c (a ++ b) = (Z.of_nat (List.length a) + rfind c b)%Z.
Proof.
  intros Hb. induction a as [|x a IH]; [simpl; lia|].
  change (rfind c ((x :: a) ++ b))
    with (let r := rfind c (a ++ b) in
          if (0 <=? r)%Z then (r + 1)%Z
          else if (x =? c)%N then 0%Z else (-1)%Z).
  cbv zeta. rewrite IH.
  destruct (Z.leb_spec 0 (Z.of_nat (List.length a) + rfind c b)); simpl List.length; lia.
Qed.

Lemma firstn_length_app (y t : str) : firstn (List.length y) (y ++ t) = y.
Proof. induction y; simpl; [now destruct t | now f_equal]. Qed.

Lemma skipn_length_app (y t : str) : skipn (List.length y) (y ++ t) = t.
Proof. induction y; simpl; auto. Qed.

Lemma splitext_slug x : forallb slug_char x = true -> splitext x = (x, []).
Proof.
  intros F. unfold splitext.
  rewrite !rfind_absent; [reflexivity | |];
    rewrite forallb_forall in *; intros c Hc; apply negb_true_iff;
    auto using slug_char_not_dot, slug_char_not_sep.
Qed.

Lemma splitext_pdf y :
  y <> [] -> forallb slug_char y = true ->
  splitext (y ++ u ".pdf") = (y, u ".pdf").
Proof.
  intros Hne F. unfold splitext.
  rewrite (rfind_absent (ch "/")).
  2:{ rewrite forallb_app, andb_true_iff. split; [|reflexivity].
      rewrite forallb_forall in *. intros c Hc. apply negb_true_iff.
      auto using slug_char_not_sep. }
  rewrite rfind_app by (vm_compute; discriminate).
  change (rfind (ch ".") (u ".pdf")) with 0%Z.
  rewrite Z.add_0_r.
  replace (-1 <? Z.of_nat (List.length y))%Z with true by (symmetry; apply Z.ltb_lt; lia).
  unfold slice. rewrite Nat2Z.id, firstn_length_app, skipn_length_app.
  change (Z.to_nat (-1 + 1)) with 0%nat. simpl skipn.
  destruct y as [|c y']; [congruence|].
  simpl in F. apply andb_true_iff in F. destruct F as [Hc _].
  cbn [existsb]. now rewrite (slug_char_not_dot _ Hc).
Qed.

Lemma slug_is_fixed_point U y :
  slug_shape y ->
  lower U (strip is_hyphen
    (re_sub_plus is_hyphen (u "-")
      (re_sub_char (fun c => negb (is_alnum c)) (u "-") y))) = y.
Proof.
  intros (F & N & S & E).
  rewrite re_sub_char_id by assumption.
  unfold re_sub_plus. rewrite re_sub_plus_id by (auto; discriminate).
  unfold strip. rewrite lstrip_id, rstrip_id by assumption.
  rewrite lower_ascii by now apply forallb_slug_kebab.
  now apply map_lower_id.
Qed.

Lemma to_kebab_case_of_slug U y : slug_shape y -> to_kebab_case U y = y.
Proof.
  intros H. unfold to_kebab_case.
  rewrite splitext_slug by apply H. now apply slug_is_fixed_point.
Qed.

Lemma to_kebab_case_of_slug_pdf U y :
  y <> [] -> slug_shape y -> to_kebab_case U (y ++ u ".pdf") = y.
Proof.
  intros Hne H. unfold to_kebab_case.
  rewrite splitext_pdf by (auto; apply H). now apply slug_is_fixed_point.
Qed.

(** For any filename whose slug is not empty, the slug is stable under
    another pass with [.pdf] appended. *)
Lemma to_kebab_case_stable U f :
  to_kebab_case U f <> [] ->
  to_kebab_case U (to_kebab_case U f ++ u ".pdf") = to_kebab_case U f.
Proof.
  intros Hne. apply to_kebab_case_of_slug_pdf; [assumption|].
  apply to_kebab_case_shape.
Qed.

(** A character other than the hyphen survives every stage. *)
Definition has_non_hyphen (s : str) : bool :=
  existsb (fun c => negb (is_hyphen c)) s.

Lemma re_sub_plus_keeps b s :
  has_non_hyphen (re_sub_plus_from is_hyphen (u "-") b s) = has_non_hyphen s.
Proof.
  unfold has_non_hyphen. revert b.
  induction s as [|c s IH]; intros b; simpl; [reflexivity|].
  destruct (is_hyphen c) eqn:E; simpl.
  - rewrite existsb_app, IH. now destruct b.
  - now rewrite E, IH.
Qed.

Lemma lstrip_keeps s :
  has_non_hyphen (lstrip is_hyphen s) = has_non_hyphen s.
Proof.
  unfold has_non_hyphen.
  induction s as [|c s IH]; simpl; [reflexivity|].
  destruct (is_hyphen c) eqn:E; simpl; [exact IH | now rewrite E].
Qed.

Lemma rstrip_keeps s :
  has_non_hyphen (rstrip is_hyphen s) = has_non_hyphen s.
Proof.
  unfold has_non_hyphen.
  induction s as [|c s IH]; simpl; [reflexivity|].
  destruct (rstrip is_hyphen s) as [|d r] eqn:R.
  - rewrite <- IH. simpl.
    destruct (is_hyphen c) eqn:E; simpl; [reflexivity | now rewrite E].
  - rewrite <- IH. reflexivity.
Qed.

Lemma map_lower_keeps s :
  has_non_hyphen (map ascii_lower s) = has_non_hyphen s.
Proof.
  unfold has_non_hyphen.
  induction s as [|c s IH]; simpl; [reflexivity|].
  now rewrite hyphen_lower, IH.
Qed.

Lemma to_kebab_case_nonempty U x :
  Forall (fun c => is_lower_alnum c = true \/ c = ch "-") x ->
  (exists c, In c x /\ is_lower_alnum c = true) ->
  to_kebab_case U x <> [].
Proof.
  intros F (c & Hin & Hc).
  assert (Fb : forallb slug_char x = true).
  { apply forallb_forall. intros a Ha.
    rewrite Forall_forall in F. destruct (F a Ha) as [H|H].
    - unfold slug_char. now rewrite H.
    - subst a. reflexivity. }
  assert (K : has_non_hyphen (to_kebab_case U x) = true).
  { unfold to_kebab_case. rewrite splitext_slug by assumption. simpl fst.
    rewrite re_sub_char_id by assumption.
    rewrite lower_ascii.
    2:{ unfold re_sub_plus.
        apply strip_shape;
          [ apply re_sub_plus_kebab; now apply forallb_slug_kebab
          | apply re_sub_plus_shape ]. }
    rewrite map_lower_keeps. unfold strip, re_sub_plus.
    rewrite rstrip_keeps, lstrip_keeps, re_sub_plus_keeps.
    apply existsb_exists. exists c. split; [assumption|].
    now rewrite lower_alnum_not_hyphen. }
  intros E. rewrite E in K. discriminate.
Qed.

Ltac slug_chars :=
  simpl;
  repeat first
    [ apply Forall_nil
    | apply Forall_cons; [first [left; reflexivity | right; reflexivity]|] ].

(** C4, as amended. For every string [x] of lowercase ASCII alphanumerics and
    hyphens that holds at least one alphanumeric,
    [to_kebab_case(to_kebab_case(x) + ".pdf") = to_kebab_case(x)]. *)
Theorem to_kebab_case_idempotent (U : unicode) (x : str) :
  Forall (fun c => is_lower_alnum c = true \/ c = ch "-") x ->
  (exists c, In c x /\ is_lower_alnum c = true) ->
  to_kebab_case U (to_kebab_case U x ++ u ".pdf") = to_kebab_case U x.
Proof.
  intros F E. apply to_kebab_case_stable. now apply to_kebab_case_nonempty.
Qed.

Lemma to_kebab_case_idempotent_witness :
  to_kebab_case ascii_tables
    (to_kebab_case ascii_tables (u "-acme--corp-") ++ u ".pdf")
  = to_kebab_case ascii_tables (u "-acme--corp-").
Proof.
  apply to_kebab_case_idempotent.
  - slug_chars.
  - exists (ch "a"). split; [simpl; tauto | reflexivity].
Defined.

(** C4 as stated fails at [x = "-"]: the string is not empty and holds only
    a hyphen; its slug is empty, and the slug of [".pdf"] is ["pdf"], since
    [splitext] takes no extension from a name that starts with its only
    dot. *)
Lemma to_kebab_case_idempotent_counterexample :
  u "-" <> []
  /\ Forall (fun c => is_lower_alnum c = true \/ c = ch "-") (u "-")
  /\ (forall U, to_kebab_case U (u "-") = [])
  /\ (forall U, to_kebab_case U (to_kebab_case U (u "-") ++ u ".pdf") = u "pdf").
Proof.
  split; [discriminate|]. split; [slug_chars|].
  split; intros U; reflexivity.
Qed.

(** ** The matcher accepts every word of the pattern *)

Lemma nullable_complete r : lang r [] -> nullable r = true.
Proof.
  intros H. remember (@nil char) as s eqn:E.
  induction H; simpl; auto.
  - discriminate.
  - apply app_eq_nil in E. destruct E as [-> ->].
    now rewrite IHlang1, IHlang2.
  - now rewrite IHlang.
  - rewrite IHlang by assumption. apply orb_true_r.
Qed.

Lemma deriv_complete r c s : lang r (c :: s) -> lang (deriv c r) s.
Proof.
  intros H. remember (c :: s) as w eqn:E. revert s E.
  induction H; intros t E; simpl.
  - discriminate.
  - injection E as -> <-. rewrite H. constructor.
  - destruct s1 as [|a s1'].
    + simpl in E. subst s2.
      rewrite (nullable_complete H). apply lang_alt_r. now apply IHlang2.
    + injection E as -> <-.
      specialize (IHlang1 _ eq_refl).
      destruct (nullable r1); [apply lang_alt_l|]; now constructor.
  - apply lang_alt_l. auto.
  - apply lang_alt_r. auto.
  - discriminate.
  - destruct s1 as [|a s1'].
    + simpl in E. now apply IHlang2.
    + injection E as -> <-. constructor; auto.
Qed.

Lemma re_match_complete r s : lang r s -> re_match r s = true.
Proof.
  revert r. induction s as [|c s IH]; intros r H; simpl.
  - now apply nullable_complete.
  - apply IH. now apply deriv_complete.
Qed.

(** ** and only those *)

Lemma nullable_sound r : nullable r = true -> lang r [].
Proof.
  induction r; simpl; intros H; try discriminate.
  - constructor.
  - apply andb_true_iff in H. destruct H.
    change (@nil char) with (@nil char ++ []). constructor; auto.
  - apply orb_true_iff in H. destruct H; [apply lang_alt_l | apply lang_alt_r]; auto.
  - constructor.
Qed.

Lemma deriv_sound r c s : lang (deriv c r) s -> lang r (c :: s).
Proof.
  revert s. induction r; simpl; intros s H.
  - inversion H.
  - inversion H.
  - destruct (p c) eqn:E; inversion H; subst. now constructor.
  - assert (L : forall t, lang (Cat (deriv c r1) r2) t -> lang (Cat r1 r2) (c :: t)).
    { intros t Ht. inversion Ht; subst.
      change (c :: s1 ++ s2) with ((c :: s1) ++ s2). constructor; auto. }
    destruct (nullable r1) eqn:N; [|auto].
    inversion H; subst; [auto|].
    change (c :: s) with ([] ++ c :: s).
    constructor; [now apply nullable_sound | auto].
  - inversion H; subst; [apply lang_alt_l | apply lang_alt_r]; auto.
  - inversion H; subst.
    change (c :: s1 ++ s2) with ((c :: s1) ++ s2). constructor; auto.
Qed.

Lemma re_match_sound r s : re_match r s = true -> lang r s.
Proof.
  revert r. induction s as [|c s IH]; intros r H; simpl in H.
  - now apply nullable_sound.
  - apply deriv_sound. now apply IH.
Qed.

Lemma re_match_lang r s : re_match r s = true <-> lang r s.
Proof. split; [apply re_match_sound | apply re_match_complete]. Qed.

(** ** Words of the pieces of [pattern] *)

Lemma lang_lit s : lang (Lit s) s.
Proof.
  induction s as [|c s IH]; simpl; [constructor|].
  change (c :: s) with ([c] ++ s). constructor; [|assumption].
  constructor. apply N.eqb_refl.
Qed.

Lemma lang_star_sym p s : forallb p s = true -> lang (Star (Sym p)) s.
Proof.
  induction s as [|c s IH]; simpl; [constructor|].
  rewrite andb_true_iff. intros [Hc Hs].
  change (c :: s) with ([c] ++ s). constructor; [now constructor | auto].
Qed.

Lemma lang_plus_sym p s :
  s <> [] -> forallb p s = true -> lang (Plus (Sym p)) s.
Proof.
  destruct s as [|c s]; [congruence|]. intros _. simpl.
  rewrite andb_true_iff. intros [Hc Hs].
  change (c :: s) with ([c] ++ s).
  constructor; [now constructor | now apply lang_star_sym].
Qed.

Lemma lang_rep_sym p s :
  forallb p s = true -> lang (Rep (List.length s) (Sym p)) s.
Proof.
  induction s as [|c s IH]; simpl; [constructor|].
  rewrite andb_true_iff. intros [Hc Hs].
  change (c :: s) with ([c] ++ s). constructor; [now constructor | auto].
Qed.

(** [([a-z0-9]+-)*[a-z0-9]+] *)
Definition slug_re : re :=
  Cat (Star (Cat (Plus (Sym is_lower_alnum)) (Lit (u "-"))))
      (Plus (Sym is_lower_alnum)).

(** [p] is the part of the current segment already read. *)
Lemma lang_slug_from y : forall p,
  forallb is_lower_alnum p = true ->
  forallb slug_char y = true ->
  no_double_hyphen y = true ->
  ends_hyphen y = false ->
  (p = [] -> starts_hyphen y = false) ->
  p ++ y <> [] ->
  lang slug_re (p ++ y).
Proof.
  induction y as [|c y IH]; intros p Fp Fy N E S Hne.
  - rewrite app_nil_r in *.
    change p with ([] ++ p). constructor; [constructor|].
    now apply lang_plus_sym.
  - simpl in Fy, N. apply andb_true_iff in Fy. destruct Fy as [Hc Fy].
    apply andb_true_iff in N. destruct N as [N1 N].
    destruct (is_hyphen c) eqn:Hy.
    + assert (Pne : p <> []) by (intros ->; specialize (S eq_refl); simpl in S; congruence).
      assert (Yne : y <> []) by (intros ->; simpl in E; congruence).
      assert (Sy : starts_hyphen y = false) by (simpl in N1; now apply negb_true_iff in N1).
      assert (Ey : ends_hyphen y = false) by (destruct y; [congruence | exact E]).
      assert (L : lang slug_re ([] ++ y)).
      { apply IH; auto. }
      simpl in L. inversion L as [| |r1 r2 s1 s2 L1 L2| | | |]; subst.
      apply hyphen_eq in Hy. subst c.
      replace (p ++ ch "-" :: s1 ++ s2) with (((p ++ u "-") ++ s1) ++ s2)
        by (rewrite <- !app_assoc; reflexivity).
      constructor; [|assumption].
      constructor; [|assumption].
      constructor; [now apply lang_plus_sym | apply lang_lit].
    + replace (p ++ c :: y) with ((p ++ [c]) ++ y)
        by (rewrite <- app_assoc; reflexivity).
      apply IH; auto.
      * rewrite forallb_app, Fp. simpl.
        now rewrite (slug_char_split _ Hc Hy).
      * destruct y; [reflexivity | exact E].
      * intros H. destruct p; discriminate.
      * destruct p; discriminate.
Qed.

Lemma lang_slug y : y <> [] -> slug_shape y -> lang slug_re y.
Proof.
  intros Hne (F & N & S & E).
  change y with ([] ++ y). now apply lang_slug_from.
Qed.

(** ** [lower] leaves ASCII text without capitals alone *)

Definition plain (c : char) : bool :=
  is_ascii c && negb (in_range (ch "A") (ch "Z") c).

Lemma lower_plain U s : forallb plain s = true -> lower U s = s.
Proof.
  intros F. unfold lower.
  replace (forallb is_ascii s) with true.
  - induction s as [|c s IH]; simpl in *; [reflexivity|].
    apply andb_true_iff in F. destruct F as [Hc Fs].
    rewrite IH by assumption. f_equal.
    unfold plain in Hc. apply andb_true_iff in Hc. destruct Hc as [_ Hc].
    unfold ascii_lower. apply negb_true_iff in Hc. now rewrite Hc.
  - symmetry. rewrite forallb_forall in *. intros c Hc.
    specialize (F c Hc). unfold plain in F.
    now apply andb_true_iff in F.
Qed.

Lemma slug_char_plain c : slug_char c = true -> plain c = true.
Proof. unfold plain. char_cases. Qed.

Lemma digit_plain c : is_digit09 c = true -> plain c = true.
Proof. unfold plain. char_cases. Qed.

Lemma digit_decimal U c : is_digit09 c = true -> is_decimal U c = true.
Proof.
  intros H. unfold is_decimal. rewrite H.
  replace (is_ascii c) with true; [reflexivity|]. revert H. char_cases.
Qed.

Lemma forallb_impl (P Q : char -> bool) s :
  (forall c, P c = true -> Q c = true) ->
  forallb P s = true -> forallb Q s = true.
Proof. rewrite !forallb_forall. auto. Qed.

(** A six-digit date in front of a non-empty slug and [.pdf] is in canonical
    form. *)
Lemma is_already_formatted_canonical U d y :
  List.length d = 6%nat -> forallb is_digit09 d = true ->
  y <> [] -> slug_shape y ->
  is_already_formatted U (d ++ u "-" ++ y ++ u ".pdf") = true.
Proof.
  intros Ld Fd Hne Hy. unfold is_already_formatted.
  rewrite lower_plain.
  2:{ rewrite !forallb_app.
      rewrite (forallb_impl _ _ _ digit_plain Fd).
      rewrite (forallb_impl _ _ _ slug_char_plain (proj1 Hy)).
      reflexivity. }
  apply re_match_complete.
  pose proof (lang_slug Hne Hy) as L.
  inversion L as [| |r1 r2 s1 s2 L1 L2| | | |]; subst.
  unfold pattern.
  replace (d ++ u "-" ++ (s1 ++ s2) ++ u ".pdf")
    with ([] ++ d ++ u "-" ++ s1 ++ s2 ++ u ".pdf" ++ [])
    by (simpl; rewrite <- !app_assoc; reflexivity).
  constructor; [constructor|].
  constructor.
  { rewrite <- Ld. apply lang_rep_sym.
    apply (forallb_impl _ _ _ (digit_decimal U) Fd). }
  constructor; [apply lang_lit|].
  constructor; [assumption|].
  constructor; [assumption|].
  constructor; [apply lang_lit|].
  apply lang_alt_l. constructor.
Qed.

(** C2. The test vectors of the format detector, and its case policy: the
    filename is lowered before it is matched, so a slug in capitals is
    accepted although the pattern itself has no capital. *)
Theorem is_already_formatted_vectors (U : unicode) :
  is_already_formatted U (u "250101-acme-corp-march.pdf") = true
  /\ is_already_formatted U (u "invoice.pdf") = false
  /\ is_already_formatted U (u "25010-abc.pdf") = false
  /\ is_already_formatted U (u "250101-ABC.pdf") = true
  /\ lower U (u "250101-ABC.pdf") = u "250101-abc.pdf"
  /\ re_match (pattern U) (u "250101-ABC.pdf") = false
  /\ (forall filename,
        is_already_formatted U filename
        = re_match (pattern U) (lower U filename)).
Proof.
  repeat split; reflexivity.
Qed.

(** ** Runs of composed programs *)

Local Open Scope prog_scope.

Lemma run_bind {A B : Type} (W : world) (p : prog A) (f : A -> prog B) h :
  run W (bind p f) h =
  match run W p h with
  | (h', inl a) => run W (f a) h'
  | (h', inr e) => (h', inr e)
  end.
Proof.
  revert h. induction p as [a|e|l k IH|R c k IH]; intros h; simpl; auto.
Qed.

Lemma run_try_except {A : Type} (W : world) (p : prog A) (hd : exn -> prog A) h :
  run W (try_except p hd) h =
  match run W p h with
  | (h', inl a) => (h', inl a)
  | (h', inr e) => run W (hd e) h'
  end.
Proof.
  revert h. induction p as [a|e|l k IH|R c k IH]; intros h; simpl; auto.
Qed.

Lemma run_do {R : Type} (W : world) (c : call R) h :
  run W (do c) h = (h ++ [Called c (W R h c)], W R h c).
Proof. simpl. now destruct (W R h c). Qed.

Lemma run_print (W : world) line h :
  run W (print line) h = (h ++ [Printed line], inl tt).
Proof. reflexivity. Qed.

(** A run only adds to the history. *)
Lemma run_extends {A : Type} (W : world) (p : prog A) h :
  exists t, fst (run W p h) = h ++ t.
Proof.
  revert h. induction p as [a|e|l k IH|R c k IH]; intros h; simpl.
  - exists []. now rewrite app_nil_r.
  - exists []. now rewrite app_nil_r.
  - destruct (IH (inl tt) (h ++ [Printed l])) as [t Ht].
    exists (Printed l :: t). rewrite Ht, <- app_assoc. reflexivity.
  - destruct (IH (W R h c) (h ++ [Called c (W R h c)])) as [t Ht].
    exists (Called c (W R h c) :: t). rewrite Ht, <- app_assoc. reflexivity.
Qed.

Lemma run_for_each_cons {A : Type} (W : world) (body : A -> prog unit) x xs h :
  snd (run W (body x) h) = inl tt ->
  run W (for_each (x :: xs) body) h =
  run W (for_each xs body) (fst (run W (body x) h)).
Proof.
  intros H. simpl for_each. rewrite run_bind.
  destruct (run W (body x) h) as [h' [[]|e]]; simpl in *; congruence.
Qed.

(** ** Runs in which [print] may raise *)

Lemma run_strict_bind {A B : Type} (W : world) (S : stdout) (p : prog A)
    (f : A -> prog B) h :
  run_strict W S (bind p f) h =
  match run_strict W S p h with
  | (h', inl a) => run_strict W S (f a) h'
  | (h', inr e) => (h', inr e)
  end.
Proof.
  revert h. induction p as [a|e|l k IH|R c k IH]; intros h; simpl; auto.
  destruct (S h l); auto.
Qed.

Lemma run_strict_try_except {A : Type} (W : world) (S : stdout) (p : prog A)
    (hd : exn -> prog A) h :
  run_strict W S (try_except p hd) h =
  match run_strict W S p h with
  | (h', inl a) => (h', inl a)
  | (h', inr e) => run_strict W S (hd e) h'
  end.
Proof.
  revert h. induction p as [a|e|l k IH|R c k IH]; intros h; simpl; auto.
  destruct (S h l); auto.
Qed.

Lemma run_strict_print (W : world) (S : stdout) line h :
  run_strict W S (print line) h =
  match S h line with
  | inl _ => (h ++ [Printed line], inl tt)
  | inr e => (h, inr e)
  end.
Proof. simpl. now destruct (S h line). Qed.

(** [run] is the strict run on a standard output that never fails. *)
Lemma run_strict_all_ok {A : Type} (W : world) (S : stdout) (p : prog A) :
  (forall h l, S h l = inl tt) ->
  forall h, run_strict W S p h = run W p h.
Proof.
  intros Ok. induction p as [a|e|l k IH|R c k IH]; intros h; simpl; auto.
  rewrite Ok. auto.
Qed.

(** Programs that never print: their strict run is their run. *)
Inductive no_print {A : Type} : prog A -> Prop :=
| no_print_Ret a : no_print (Ret a)
| no_print_Raise e : no_print (Raise e)
| no_print_Do R (c : call R) k :
    (forall r, no_print (k r)) -> no_print (Do c k).

Lemma no_print_bind {A B : Type} (p : prog A) (f : A -> prog B) :
  no_print p -> (forall a, no_print (f a)) -> no_print (bind p f).
Proof.
  intros Hp Hf. induction Hp; simpl; auto using no_print_Raise.
  constructor. auto.
Qed.

Lemma no_print_try_except {A : Type} (p : prog A) (hd : exn -> prog A) :
  no_print p -> (forall e, no_print (hd e)) -> no_print (try_except p hd).
Proof.
  intros Hp Hh. induction Hp; simpl; auto using no_print_Ret.
  constructor. auto.
Qed.

Lemma no_print_do {R : Type} (c : call R) : no_print (do c).
Proof. constructor. intros [v|e]; constructor. Qed.

Lemma no_print_of_result {A : Type} (r : result A) : no_print (of_result r).
Proof. destruct r; constructor. Qed.

Lemma no_print_run_strict {A : Type} (W : world) (S : stdout) (p : prog A) :
  no_print p -> forall h, run_strict W S p h = run W p h.
Proof. intros Hp. induction Hp; intros h; simpl; auto. Qed.

Ltac no_print_steps :=
  repeat first
    [ apply no_print_Ret | apply no_print_Raise | apply no_print_do
    | apply no_print_of_result | apply no_print_bind
    | apply no_print_try_except | intro
    | match goal with
      | |- no_print (match ?x with _ => _ end) => destruct x
      | |- no_print (if ?x then _ else _) => destruct x
      end ].

Lemma invoice_date_of_no_print U environ available client pdf_path :
  no_print (invoice_date_of U environ available client pdf_path).
Proof.
  unfold invoice_date_of, extract_pdf_text_for_ollama_ai, ask_ollama_for_date,
    load_pdf_data_for_remote_ai, determine_invoice_date_remote_ai, first_text,
    getenv_plus.
  no_print_steps.
Qed.

Lemma ollama_is_available_no_print environ :
  no_print (ollama_is_available environ).
Proof.
  unfold ollama_is_available, is_ollama_running, getenv_plus.
  no_print_steps.
Qed.

(** ** One file *)

Section OneFile.

Variable U : unicode.
Variable environ : str -> option str.
Variable W : world.
Variable available : bool.
Variable client : Client.

(** The statements of the [try] block after the format check. *)
Definition extract_and_rename (pdf_path : Path) : prog unit :=
  invoice_date <- invoice_date_of U environ available client pdf_path ;;
  rename_pdf_with_date U pdf_path invoice_date.

Lemma process_pdf_file_skip pdf_path h :
  is_already_formatted U (name pdf_path) = true ->
  run W (process_pdf_file U environ available client pdf_path) h
  = (h ++ [Printed (skip_line pdf_path)], inl tt).
Proof.
  intros H. unfold process_pdf_file. rewrite H. reflexivity.
Qed.

Lemma process_pdf_file_run pdf_path h :
  is_already_formatted U (name pdf_path) = false ->
  run W (process_pdf_file U environ available client pdf_path) h =
  match run W (extract_and_rename pdf_path) h with
  | (h', inl _) => (h', inl tt)
  | (h', inr e) => (h' ++ [Printed (error_line pdf_path e)], inl tt)
  end.
Proof.
  intros H. unfold process_pdf_file. rewrite H, run_try_except.
  fold (extract_and_rename pdf_path).
  now destruct (run W (extract_and_rename pdf_path) h) as [h' [[]|e]].
Qed.

(** No exception leaves the loop body. *)
Lemma process_pdf_file_returns pdf_path h :
  snd (run W (process_pdf_file U environ available client pdf_path) h) = inl tt.
Proof.
  destruct (is_already_formatted U (name pdf_path)) eqn:E.
  - now rewrite process_pdf_file_skip.
  - rewrite process_pdf_file_run by assumption.
    now destruct (run W (extract_and_rename pdf_path) h) as [h' [[]|e]].
Qed.

Lemma loop_step pdf_path rest h :
  run W (for_each (pdf_path :: rest)
           (process_pdf_file U environ available client)) h =
  run W (for_each rest (process_pdf_file U environ available client))
    (fst (run W (process_pdf_file U environ available client pdf_path) h)).
Proof. apply run_for_each_cons, process_pdf_file_returns. Qed.

(** No exception leaves the loop. *)
Lemma loop_returns pdf_files h :
  snd (run W (for_each pdf_files
                (process_pdf_file U environ available client)) h) = inl tt.
Proof.
  revert h. induction pdf_files as [|p ps IH]; intros h; [reflexivity|].
  rewrite loop_step. apply IH.
Qed.

Lemma loop_app before after h :
  run W (for_each (before ++ after)
           (process_pdf_file U environ available client)) h =
  run W (for_each after (process_pdf_file U environ available client))
    (fst (run W (for_each before
                   (process_pdf_file U environ available client)) h)).
Proof.
  revert h. induction before as [|p ps IH]; intros h; [reflexivity|].
  rewrite <- app_comm_cons, !loop_step. apply IH.
Qed.

End OneFile.

(** The loop body when [print] may raise: an exception of the [try] block
    goes to the handler, an exception of the handler's [print] leaves the
    body. *)
Lemma process_pdf_file_strict U environ (W : world) (S : stdout) available
    client pdf_path h :
  is_already_formatted U (name pdf_path) = false ->
  run_strict W S (process_pdf_file U environ available client pdf_path) h =
  match run_strict W S
          (extract_and_rename U environ available client pdf_path) h with
  | (h', inl _) => (h', inl tt)
  | (h', inr e) =>
      match S h' (error_line pdf_path e) with
      | inl _ => (h' ++ [Printed (error_line pdf_path e)], inl tt)
      | inr e' => (h', inr e')
      end
  end.
Proof.
  intros H. unfold process_pdf_file. rewrite H, run_strict_try_except.
  fold (extract_and_rename U environ available client pdf_path).
  destruct (run_strict W S
              (extract_and_rename U environ available client pdf_path) h)
    as [h' [[]|e]]; [reflexivity|].
  apply run_strict_print.
Qed.

(** ** Paths of renamed files *)

Definition no_sep (s : str) : bool := forallb (fun c => negb (c =? ch "/")%N) s.

Lemma split_no_sep s : no_sep s = true -> split (ch "/") s = [s].
Proof.
  unfold no_sep. induction s as [|c s IH]; cbn [split forallb]; [reflexivity|].
  rewrite andb_true_iff. intros [Hc Hs].
  apply negb_true_iff in Hc. rewrite Hc, (IH Hs). reflexivity.
Qed.

Lemma str_eqb_neq a b : a <> b -> str_eqb a b = false.
Proof. intros H. unfold str_eqb. now destruct (list_eq_dec N.eq_dec a b). Qed.

Lemma parse_path_plain s :
  s <> [] -> s <> u "." -> no_sep s = true ->
  parse_path s = {| root := []; parts := [s] |}.
Proof.
  intros H1 H2 H3. unfold parse_path, splitroot.
  assert (S0 : sep_at 0 s = false).
  { destruct s as [|c s']; [congruence|]. unfold no_sep in H3. simpl in H3.
    apply andb_true_iff in H3. destruct H3 as [H3 _].
    now apply negb_true_iff in H3. }
  rewrite S0. simpl negb. cbv beta iota.
  rewrite split_no_sep by assumption. simpl filter.
  now rewrite !str_eqb_neq by assumption.
Qed.

Lemma name_joinpath dir s :
  s <> [] -> s <> u "." -> no_sep s = true ->
  name (joinpath dir s) = s /\ parent (joinpath dir s) = dir.
Proof.
  intros H1 H2 H3. unfold joinpath. rewrite parse_path_plain by assumption.
  simpl. unfold name, parent. simpl. rewrite last_last. split; [reflexivity|].
  destruct (parts dir ++ [s]) eqn:E; [now destruct (parts dir)|].
  rewrite <- E, removelast_last. now destruct dir.
Qed.

Lemma digit_no_sep c : is_digit09 c = true -> negb (c =? ch "/")%N = true.
Proof. char_cases. Qed.

Lemma slug_char_no_sep c : slug_char c = true -> negb (c =? ch "/")%N = true.
Proof. char_cases. Qed.

Lemma new_filename_plain U f d :
  List.length d = 6%nat -> forallb is_digit09 d = true ->
  let s := new_filename U f d in
  s <> [] /\ s <> u "." /\ no_sep s = true.
Proof.
  intros Ld Fd s. subst s. unfold new_filename.
  assert (L : forall t, d ++ t <> [] /\ d ++ t <> u ".").
  { intros t. split; intros E; apply (f_equal (@List.length char)) in E;
      rewrite length_app in E; simpl in E; lia. }
  split; [apply L|]. split; [apply L|].
  - unfold no_sep. rewrite !forallb_app.
    rewrite (forallb_impl _ _ _ digit_no_sep Fd).
    rewrite (forallb_impl _ _ _ slug_char_no_sep
               (proj1 (to_kebab_case_shape U f))).
    reflexivity.
Qed.

Lemma name_new_path U pdf_path d :
  List.length d = 6%nat -> forallb is_digit09 d = true ->
  name (new_path U pdf_path d) = new_filename U (name pdf_path) d.
Proof.
  intros Ld Fd. unfold new_path.
  destruct (new_filename_plain U (name pdf_path) d Ld Fd) as (H1 & H2 & H3).
  now apply name_joinpath.
Qed.

(** ** Kinds of events *)

Definition is_printed (e : event) : bool :=
  match e with Printed _ => true | _ => false end.


(** The liveness probe, [requests.get] *)
Definition is_probe (e : event) : bool :=
  match e with Called (requests_get _ _) _ => true | _ => false end.

(** The calls of the local variant: [fitz.open], [requests.post] *)
Definition is_local_call (e : event) : bool :=
  match e with
  | Called (fitz_open _) _ => true
  | Called (requests_post _ _ _ _) _ => true
  | _ => false
  end.

(** The calls of the cloud variant: reading the file, [messages.create] *)
Definition is_cloud_call (e : event) : bool :=
  match e with
  | Called (read_binary _) _ => true
  | Called (messages_create _ _ _ _ _ _) _ => true
  | _ => false
  end.

(** [Path.rename], the only call that changes the file system *)
Definition is_rename (e : event) : bool :=
  match e with Called (Path_rename _ _) _ => true | _ => false end.

(** The renames of a history, as pairs of source and target. *)
Definition renames (t : list event) : list (Path * Path) :=
  flat_map (fun e => match e with
                     | Called (Path_rename src dst) _ => [(src, dst)]
                     | _ => []
                     end) t.

(** The lines printed in a history. *)
Definition printed (t : list event) : list str :=
  flat_map (fun e => match e with Printed l => [l] | _ => [] end) t.

(** ** Worlds for closed examples *)

(** A world that answers by fixed tables. *)
Record answers := {
  glob_pdf : list Path;                    (* [*.pdf] *)
  glob_PDF : list Path;                    (* [*.PDF] *)
  get_answer : result Response;            (* [requests.get] *)
  post_answer : str -> result Response;    (* [requests.post], by prompt *)
  pages_of : str -> result (list str);     (* [fitz.open], by path *)
  bytes_of : str -> result (list N);       (* the file's bytes, by path *)
  message_for : str -> result Message;     (* [messages.create], by data *)
  rename_answer : Path -> Path -> result unit
}.

Definition table_world (a : answers) : world :=
  fun R _ c =>
    match c in call R return result R with
    | load_dotenv => inl tt
    | Anthropic k => inl (client_of_key k)
    | Path_glob _ pat =>
        if str_eqb pat (u "*.pdf") then inl (glob_pdf a)
        else inl (glob_PDF a)
    | requests_get _ _ => get_answer a
    | requests_post _ _ prompt _ => post_answer a prompt
    | fitz_open file_path => pages_of a file_path
    | read_binary file_path => bytes_of a file_path
    | messages_create _ _ _ _ data _ => message_for a data
    | Path_rename src dst => rename_answer a src dst
    end.

Definition no_environ : str -> option str := fun _ => None.

Definition connection_error : exn := Exception (u "Connection error.").

(** A directory [/inv] with the given files, no Ollama, and a cloud backend
    that answers [date] for every file. *)
Definition cloud_world (names : list str) (date : str) : world :=
  table_world
    {| glob_pdf := map (joinpath (parse_path (u "/inv"))) names;
       glob_PDF := [];
       get_answer := inr connection_error;
       post_answer := fun _ => inr connection_error;
       pages_of := fun _ => inl [];
       bytes_of := fun _ => inl [37; 80; 68; 70]%N;
       message_for := fun _ => inl {| content := [TextBlock date] |};
       rename_answer := fun _ _ => inl tt |}.

(** ** The batch loop: skipped files, failing files *)




(** C1, as amended. For every filename [f] whose slug is not empty and every
    date [d] of six ASCII digits, the name the rename step builds,
    [d + "-" + to_kebab_case(f) + ".pdf"], is accepted by
    [is_already_formatted]; it is the name of the renamed path; and a later
    run of the loop body on a path of that name only prints the skip line. *)
Theorem renamed_file_is_skipped (U : unicode) (environ : str -> option str)
    (W : world) (available : bool) (client : Client) (f d : str) :
  List.length d = 6%nat ->
  Forall (fun c => is_digit09 c = true) d ->
  to_kebab_case U f <> [] ->
  is_already_formatted U (d ++ u "-" ++ to_kebab_case U f ++ u ".pdf") = true
  /\ (forall pdf_path, name pdf_path = f ->
        name (new_path U pdf_path d)
        = d ++ u "-" ++ to_kebab_case U f ++ u ".pdf")
  /\ (forall renamed h,
        name renamed = d ++ u "-" ++ to_kebab_case U f ++ u ".pdf" ->
        run W (process_pdf_file U environ available client renamed) h
        = (h ++ [Printed (skip_line renamed)], inl tt)).
Proof.
  intros Ld Fd Hne.
  assert (Fb : forallb is_digit09 d = true)
    by (apply forallb_forall; now apply Forall_forall).
  assert (C : is_already_formatted U
                (d ++ u "-" ++ to_kebab_case U f ++ u ".pdf") = true).
  { apply is_already_formatted_canonical; auto using to_kebab_case_shape. }
  split; [exact C|]. split.
  - intros pdf_path <-. now apply name_new_path.
  - intros renamed h E. apply process_pdf_file_skip. now rewrite E.
Qed.

Definition march_pdf : Path := parse_path (u "/inv/Invoice March.pdf").

Lemma renamed_file_is_skipped_witness :
  is_already_formatted ascii_tables (u "250315-invoice-march.pdf") = true
  /\ name (new_path ascii_tables march_pdf (u "250315"))
     = u "250315-invoice-march.pdf".
Proof.
  destruct (@renamed_file_is_skipped ascii_tables no_environ
              (cloud_world [] (u "250315")) false (client_of_key None)
              (u "Invoice March.pdf") (u "250315")) as (A & B & _).
  - reflexivity.
  - repeat constructor.
  - vm_compute. discriminate.
  - split; [exact A | exact (B march_pdf eq_refl)].
Defined.

(** C1 as stated fails at [f = "_.pdf"], [d = "250101"]: the slug is empty,
    the rename step builds [250101-.pdf], the detector rejects it, and the
    next run renames the file again. *)
Lemma renamed_file_is_skipped_counterexample :
  (forall U, to_kebab_case U (u "_.pdf") = [])
  /\ (forall U, new_filename U (u "_.pdf") (u "250101") = u "250101-.pdf")
  /\ (forall U, is_already_formatted U (u "250101-.pdf") = false)
  /\ renames
       (fst (run (cloud_world [u "250101-.pdf"] (u "250101"))
               (process_pdf_directory ascii_tables no_environ (u "/inv")) []))
     = [(parse_path (u "/inv/250101-.pdf"),
         parse_path (u "/inv/250101-250101.pdf"))].
Proof.
  repeat split; intros; reflexivity.
Qed.


(** A directory [/inv] with [broken.pdf] and [Invoice March.pdf], no Ollama;
    the cloud call fails for the first file and answers 250315 for the
    second. *)
Definition broken_pdf : Path := parse_path (u "/inv/broken.pdf").

Definition flaky_world : world :=
  table_world
    {| glob_pdf := [broken_pdf; march_pdf];
       glob_PDF := [];
       get_answer := inr connection_error;
       post_answer := fun _ => inr connection_error;
       pages_of := fun _ => inl [];
       bytes_of := fun file_path =>
         if str_eqb file_path (u "/inv/broken.pdf")
         then inl [0]%N else inl [37; 80; 68; 70]%N;
       message_for := fun data =>
         if str_eqb data (u "AA==") then inr connection_error
         else inl {| content := [TextBlock (u "250315")] |};
       rename_answer := fun _ _ => inl tt |}.

(** A standard output that never fails, and one that, like a UTF-8 stream,
    rejects a line that holds a surrogate code point (an undecodable byte of
    a file name). *)
Definition steady_stdout : stdout := fun _ _ => inl tt.

Definition is_surrogate (c : char) : bool := in_range 55296%N 57343%N c.

(** [UnicodeEncodeError] names the character as ['\udce4'] and its position
    in the line. *)
Definition hex_digit (n : N) : char :=
  (if n <? 10 then 48 + n else 87 + n)%N.

Definition escape_u (c : char) : str :=
  u "\u" ++ [hex_digit (c / 4096); hex_digit ((c / 256) mod 16);
             hex_digit ((c / 16) mod 16); hex_digit (c mod 16)]%N.

Fixpoint find_surrogate (line : str) (position : nat) : option (nat * char) :=
  match line with
  | [] => None
  | c :: rest =>
      if is_surrogate c then Some (position, c)
      else find_surrogate rest (S position)
  end.

Definition utf8_stdout : stdout :=
  fun _ line =>
    match find_surrogate line 0 with
    | Some (position, c) =>
        inr (Exception
               (u "'utf-8' codec can't encode character '" ++ escape_u c
                ++ u "' in position " ++ str_of_nat position
                ++ u ": surrogates not allowed"))
    | None => inl tt
    end.


(** A directory [/inv] whose first file has a name with an undecodable byte
    (the surrogate U+DCE4) and whose second file is [Invoice March.pdf]; the
    cloud call fails for the first file and answers 250315 for the second. *)
Definition maerz_pdf : Path :=
  joinpath (parse_path (u "/inv")) ([77; 56548] ++ u "rz.pdf")%N.

Definition maerz_world : world :=
  table_world
    {| glob_pdf := [maerz_pdf; march_pdf];
       glob_PDF := [];
       get_answer := inr connection_error;
       post_answer := fun _ => inr connection_error;
       pages_of := fun _ => inl [];
       bytes_of := fun file_path =>
         if existsb is_surrogate file_path
         then inl [0]%N else inl [37; 80; 68; 70]%N;
       message_for := fun data =>
         if str_eqb data (u "AA==") then inr connection_error
         else inl {| content := [TextBlock (u "250315")] |};
       rename_answer := fun _ _ => inl tt |}.

(** C6 as stated fails: the extraction of the first file raises, the handler's
    [print] of the error line raises in turn (the file name cannot be
    encoded), the batch ends with that exception, and [Invoice March.pdf] is
    never read and never renamed (the two cloud calls made are those of the
    first file).  On a standard output that takes every
    line the same batch renames it. *)
Lemma per_file_failure_isolation_counterexample :
  snd (run_strict maerz_world utf8_stdout
         (invoice_date_of ascii_tables no_environ false (client_of_key None)
            maerz_pdf)
         [])
  = inr connection_error
  /\ snd (run_strict maerz_world utf8_stdout
            (process_pdf_directory ascii_tables no_environ (u "/inv")) [])
     = inr (Exception
              (u "'utf-8' codec can't encode character '\udce4' in position 23: surrogates not allowed"))
  /\ renames
       (fst (run_strict maerz_world utf8_stdout
               (process_pdf_directory ascii_tables no_environ (u "/inv")) []))
     = []
  /\ List.length
       (filter is_cloud_call
          (fst (run_strict maerz_world utf8_stdout
                  (process_pdf_directory ascii_tables no_environ (u "/inv"))
                  [])))
     = 2%nat
  /\ printed
       (fst (run_strict maerz_world utf8_stdout
               (process_pdf_directory ascii_tables no_environ (u "/inv")) []))
     = [u "Found 2 PDF files to process"]
  /\ renames
       (fst (run_strict maerz_world steady_stdout
               (process_pdf_directory ascii_tables no_environ (u "/inv")) []))
     = [(march_pdf, parse_path (u "/inv/250315-invoice-march.pdf"))].
Proof.
  repeat split; vm_compute; reflexivity.
Qed.

(** ** The rename step *)

Section Rename.

Variable U : unicode.
Variable environ : str -> option str.
Variable W : world.
Variable client : Client.

Definition renamed_line (pdf_path target : Path) : str :=
  u "Renamed: " ++ path_str pdf_path ++ u " -> " ++ path_str target.

Lemma rename_pdf_with_date_run pdf_path s h :
  let target := new_path U pdf_path s in
  let r := @W unit h (Path_rename pdf_path target) in
  run W (rename_pdf_with_date U pdf_path s) h =
  match r with
  | inl _ =>
      (h ++ [Called (Path_rename pdf_path target) r;
             Printed (renamed_line pdf_path target)], inl tt)
  | inr e => (h ++ [Called (Path_rename pdf_path target) r], inr e)
  end.
Proof.
  intros target r. unfold rename_pdf_with_date. fold target.
  rewrite run_bind, run_do. fold r.
  destruct r as [[]|e]; [|reflexivity].
  rewrite run_print, <- app_assoc. reflexivity.
Qed.

(** Once a date [s] came back for a file, the file is renamed to
    [new_path pdf_path s], whatever [s] is. *)
Lemma process_pdf_file_renames available pdf_path h h1 s :
  is_already_formatted U (name pdf_path) = false ->
  run W (invoice_date_of U environ available client pdf_path) h = (h1, inl s) ->
  let target := new_path U pdf_path s in
  let r := @W unit h1 (Path_rename pdf_path target) in
  run W (process_pdf_file U environ available client pdf_path) h
  = (h1 ++ [Called (Path_rename pdf_path target) r;
            Printed (match r with
                     | inl _ => renamed_line pdf_path target
                     | inr e => error_line pdf_path e
                     end)],
     inl tt).
Proof.
  intros F D target r.
  rewrite process_pdf_file_run by assumption.
  unfold extract_and_rename. rewrite run_bind, D, rename_pdf_with_date_run.
  fold target r. destruct r as [[]|e]; [reflexivity|].
  rewrite <- app_assoc. reflexivity.
Qed.

Lemma local_variant_returns pdf_path h url doc resp field :
  environ (u "OLLAMA_API_URL") = Some url ->
  @W _ h (fitz_open (path_str pdf_path)) = inl doc ->
  @W _ (h ++ [Called (fitz_open (path_str pdf_path)) (inl doc)])
    (requests_post (url ++ u "/generate") (environ (u "OLLAMA_MODEL"))
       (ollama_prompt (fold_left (fun pdf_text page => pdf_text ++ page) doc []))
       false) = inl resp ->
  json_response resp = inl field ->
  snd (run W (invoice_date_of U environ true client pdf_path) h)
  = inl (strip (is_space U) field).
Proof.
  intros Eu Ef Ep Ej. unfold invoice_date_of, extract_pdf_text_for_ollama_ai,
    ask_ollama_for_date, getenv.
  rewrite Eu. simpl. rewrite Ef. simpl. rewrite Ep. simpl. rewrite Ej.
  reflexivity.
Qed.

Lemma cloud_variant_returns pdf_path h data m text rest :
  @W _ h (read_binary (path_str pdf_path)) = inl data ->
  @W _ (h ++ [Called (read_binary (path_str pdf_path)) (inl data)])
    (messages_create client (environ (u "ANTHROPIC_MODEL"))
       [u "pdfs-2024-09-25"] 1024 (b64encode data) remote_question) = inl m ->
  content m = TextBlock text :: rest ->
  snd (run W (invoice_date_of U environ false client pdf_path) h) = inl text.
Proof.
  intros Er Em Ec. unfold invoice_date_of, load_pdf_data_for_remote_ai,
    determine_invoice_date_remote_ai, first_text, getenv.
  simpl. rewrite Er. simpl. rewrite Em. simpl. rewrite Ec. reflexivity.
Qed.

End Rename.

(** C8. Whatever string [s] the active variant returns for a file that is not
    in canonical form, the loop body renames the file to its directory joined
    with [s + "-" + to_kebab_case(name) + ".pdf"]; nothing checks [s].  The
    local variant returns the stripped [response] field of the answer, the
    cloud variant the text of the first content block. *)
Theorem date_embedded_verbatim (U : unicode) (environ : str -> option str)
    (W : world) (available : bool) (client : Client) (pdf_path : Path)
    (h h1 : list event) (s : str) :
  is_already_formatted U (name pdf_path) = false ->
  run W (invoice_date_of U environ available client pdf_path) h = (h1, inl s) ->
  let target :=
    joinpath (parent pdf_path)
      (s ++ u "-" ++ to_kebab_case U (name pdf_path) ++ u ".pdf") in
  let r := W _ h1 (Path_rename pdf_path target) in
  run W (process_pdf_file U environ available client pdf_path) h
  = (h1 ++ [Called (Path_rename pdf_path target) r;
            Printed (match r with
                     | inl _ => renamed_line pdf_path target
                     | inr e => error_line pdf_path e
                     end)],
     inl tt)
  /\ (forall url doc resp field,
        environ (u "OLLAMA_API_URL") = Some url ->
        W _ h (fitz_open (path_str pdf_path)) = inl doc ->
        W _ (h ++ [Called (fitz_open (path_str pdf_path)) (inl doc)])
          (requests_post (url ++ u "/generate") (environ (u "OLLAMA_MODEL"))
             (ollama_prompt
                (fold_left (fun pdf_text page => pdf_text ++ page) doc []))
             false) = inl resp ->
        json_response resp = inl field ->
        snd (run W (invoice_date_of U environ true client pdf_path) h)
        = inl (strip (is_space U) field))
  /\ (forall data m text rest,
        W _ h (read_binary (path_str pdf_path)) = inl data ->
        W _ (h ++ [Called (read_binary (path_str pdf_path)) (inl data)])
          (messages_create client (environ (u "ANTHROPIC_MODEL"))
             [u "pdfs-2024-09-25"] 1024 (b64encode data) remote_question)
        = inl m ->
        content m = TextBlock text :: rest ->
        snd (run W (invoice_date_of U environ false client pdf_path) h)
        = inl text).
Proof.
  intros F D target r. split; [|split].
  - exact (process_pdf_file_renames U environ W client available pdf_path h F D).
  - intros. eapply local_variant_returns; eassumption.
  - intros. eapply cloud_variant_returns; eassumption.
Qed.

(** A cloud answer that is no date at all ends up in the file name. *)
Lemma date_embedded_verbatim_witness :
  renames
    (fst (run (cloud_world [u "Invoice March.pdf"] (u "March 15, 2025"))
            (process_pdf_file ascii_tables no_environ false
               (client_of_key None) march_pdf) []))
  = [(march_pdf, parse_path (u "/inv/March 15, 2025-invoice-march.pdf"))].
Proof.
  destruct (@date_embedded_verbatim ascii_tables no_environ
              (cloud_world [u "Invoice March.pdf"] (u "March 15, 2025"))
              false (client_of_key None) march_pdf [] _ _ eq_refl eq_refl)
    as (A & _).
  rewrite A. vm_compute. reflexivity.
Defined.

(** C10. The rename target is not injective in the source name: in any
    directory and for any date, [a b.pdf] and [a_b.pdf] are different files
    of that directory with the same target; in a batch that gets the same
    date for both, the second rename goes to the path the first one just
    took. *)
Theorem rename_target_not_injective (U : unicode) (dir : Path) (d : str) :
  let p1 := joinpath dir (u "a b.pdf") in
  let p2 := joinpath dir (u "a_b.pdf") in
  name p1 = u "a b.pdf" /\ name p2 = u "a_b.pdf"
  /\ p1 <> p2
  /\ parent p1 = dir /\ parent p2 = dir
  /\ new_path U p1 d = joinpath dir (d ++ u "-a-b.pdf")
  /\ new_path U p2 d = new_path U p1 d
  /\ renames
       (fst (run (cloud_world [u "a b.pdf"; u "a_b.pdf"] (u "250315"))
               (process_pdf_directory ascii_tables no_environ (u "/inv")) []))
     = [(parse_path (u "/inv/a b.pdf"), parse_path (u "/inv/250315-a-b.pdf"));
        (parse_path (u "/inv/a_b.pdf"), parse_path (u "/inv/250315-a-b.pdf"))].
Proof.
  intros p1 p2.
  destruct (@name_joinpath dir (u "a b.pdf")) as [N1 P1];
    [discriminate | discriminate | reflexivity |].
  destruct (@name_joinpath dir (u "a_b.pdf")) as [N2 P2];
    [discriminate | discriminate | reflexivity |].
  fold p1 in N1, P1. fold p2 in N2, P2.
  assert (T : forall p, name p = u "a b.pdf" \/ name p = u "a_b.pdf" ->
                        parent p = dir ->
                        new_path U p d = joinpath dir (d ++ u "-a-b.pdf")).
  { intros p [E|E] Pp; unfold new_path, new_filename; rewrite E, Pp; reflexivity. }
  repeat split; auto.
  - intros E. rewrite E, N2 in N1. discriminate.
  - rewrite !T; auto.
Qed.

(** ** The directory without PDF files *)





(** ** The choice of the backend *)

(** The probe answered with status 200. *)
Definition probe_200 (e : event) : bool :=
  match e with
  | Called c r =>
      match c in call R return result R -> bool with
      | requests_get _ _ =>
          fun r => match r with
                   | inl response => (status_code response =? 200)%Z
                   | inr _ => false
                   end
      | _ => fun _ => false
      end r
  | Printed _ => false
  end.

(** Both Ollama settings are present and not empty. *)
Definition configured (environ : str -> option str) : bool :=
  truthy (environ (u "OLLAMA_API_URL")) && truthy (environ (u "OLLAMA_MODEL")).

(** The selection policy in the words of the specification: the local variant
    is used when the local configuration is present and the probe succeeded. *)
Definition local_selected (environ : str -> option str) (t : list event) : bool :=
  configured environ && existsb probe_200 t.

(** The files the directory listing returned. *)
Definition listed (t : list event) : list Path :=
  flat_map
    (fun e =>
       match e with
       | Called c r =>
           match c in call R return result R -> list Path with
           | Path_glob _ _ =>
               fun r => match r with inl files => files | inr _ => [] end
           | _ => fun _ => []
           end r
       | Printed _ => []
       end) t.

(** The first call each variant makes for a file. *)
Definition starts_local (pdf_path : Path) (e : event) : bool :=
  match e with
  | Called (fitz_open file_path) _ => str_eqb file_path (path_str pdf_path)
  | _ => false
  end.

Definition starts_cloud (pdf_path : Path) (e : event) : bool :=
  match e with
  | Called (read_binary file_path) _ => str_eqb file_path (path_str pdf_path)
  | _ => false
  end.

(** The events of the loop: backend calls and renames. *)
Definition is_per_file (e : event) : bool :=
  is_local_call e || is_cloud_call e || is_rename e.

(** What the loop may leave behind when the run uses the variant [local]. *)
Definition file_event (local : bool) (e : event) : bool :=
  is_printed e || is_rename e
  || (if local then is_local_call e else is_cloud_call e).

(** What the batch leaves behind before the probe. *)
Definition early_event (e : event) : bool :=
  negb (is_probe e) && negb (is_per_file e).

Ltac event_cases e :=
  unfold file_event, early_event, is_per_file in *;
  destruct e as [?|? [] ?]; cbn in *; try congruence; auto.

Lemma file_event_no_probe local e : file_event local e = true -> is_probe e = false.
Proof. destruct local; event_cases e. Qed.

Lemma file_event_no_probe_200 local e :
  file_event local e = true -> probe_200 e = false.
Proof. destruct local; event_cases e. Qed.

Lemma file_event_local local e :
  file_event local e = true -> is_local_call e = true -> local = true.
Proof. destruct local; event_cases e. Qed.

Lemma file_event_cloud local e :
  file_event local e = true -> is_cloud_call e = true -> local = false.
Proof. destruct local; event_cases e. Qed.

Lemma early_event_no_probe e : early_event e = true -> is_probe e = false.
Proof. event_cases e. Qed.

Lemma early_event_no_probe_200 e : early_event e = true -> probe_200 e = false.
Proof. event_cases e. Qed.

Lemma early_event_no_per_file e : early_event e = true -> is_per_file e = false.
Proof. event_cases e. Qed.

Lemma early_event_no_local e : early_event e = true -> is_local_call e = false.
Proof. event_cases e. Qed.

Lemma early_event_no_cloud e : early_event e = true -> is_cloud_call e = false.
Proof. event_cases e. Qed.

Lemma probe_no_local e : is_probe e = true -> is_local_call e = false.
Proof. event_cases e. Qed.

Lemma probe_no_cloud e : is_probe e = true -> is_cloud_call e = false.
Proof. event_cases e. Qed.

Lemma probe_200_is_probe e : probe_200 e = true -> is_probe e = true.
Proof. event_cases e. Qed.

Lemma forallb_none (P Q : event -> bool) t :
  (forall e, P e = true -> Q e = false) ->
  forallb P t = true -> existsb Q t = false.
Proof.
  intros PQ. induction t as [|e t IH]; simpl; [reflexivity|].
  rewrite andb_true_iff. intros [He Ht]. now rewrite (PQ e He), IH.
Qed.

Lemma forallb_no_filter (P Q : event -> bool) t :
  (forall e, P e = true -> Q e = false) ->
  forallb P t = true -> filter Q t = [].
Proof.
  intros PQ. induction t as [|e t IH]; simpl; [reflexivity|].
  rewrite andb_true_iff. intros [He Ht]. now rewrite (PQ e He), IH.
Qed.

Lemma file_events_not_listed local t :
  forallb (file_event local) t = true -> listed t = [].
Proof.
  induction t as [|e t IH]; simpl; [reflexivity|].
  rewrite andb_true_iff. intros [He Ht]. rewrite (IH Ht), app_nil_r.
  destruct local; event_cases e.
Qed.

(** The place of the one event of a kind in a history. *)
Lemma split_at_unique (P : event -> bool) a x b : forall c y d,
  existsb P a = false -> existsb P b = false -> P y = true ->
  a ++ x :: b = c ++ y :: d -> c = a.
Proof.
  induction a as [|z a IH]; intros c y d Ha Hb Hy E.
  - destruct c as [|z' c]; [reflexivity|].
    simpl in E. injection E as _ E.
    assert (X : existsb P b = true).
    { rewrite E, existsb_app. simpl. rewrite Hy. apply orb_true_r. }
    congruence.
  - simpl in Ha. apply orb_false_iff in Ha. destruct Ha as [Hz Ha].
    destruct c as [|z' c]; simpl in E; injection E as E1 E2.
    + congruence.
    + subst z'. f_equal. eapply IH; eauto.
Qed.

Lemma str_eqb_refl (a : str) : str_eqb a a = true.
Proof. unfold str_eqb. now destruct (list_eq_dec N.eq_dec a a). Qed.

(** [ollama_is_available] never raises.  It makes no call when a setting is
    missing, and otherwise the one probe, whose outcome decides. *)
Lemma ollama_is_available_run environ (W : world) h :
  exists sel local,
    run W (ollama_is_available environ) h = (h ++ sel, inl local)
    /\ ((sel = [] /\ local = false /\ configured environ = false)
        \/ (configured environ = true
            /\ exists url answer,
                 sel = [Called (requests_get url 2) answer]
                 /\ local = probe_200 (Called (requests_get url 2) answer))).
Proof.
  unfold ollama_is_available, configured, getenv.
  destruct (environ (u "OLLAMA_API_URL")) as [[|c url]|] eqn:Eu; cbn [truthy].
  1,3: exists [], false; rewrite app_nil_r; auto.
  destruct (environ (u "OLLAMA_MODEL")) as [[|c' model]|] eqn:Em; cbn [truthy].
  1,3: exists [], false; rewrite app_nil_r; auto.
  unfold is_ollama_running, getenv. rewrite Eu.
  cbn [getenv_plus bind try_except do run].
  set (probe := requests_get ((c :: url) ++ u "/version") 2).
  exists [Called probe (W _ h probe)], (probe_200 (Called probe (W _ h probe))).
  split.
  - destruct (W Response h probe) as [response|e]; reflexivity.
  - right. split; [reflexivity|]. now exists ((c :: url) ++ u "/version"), (W _ h probe).
Qed.

Section Loop.

Variable U : unicode.
Variable environ : str -> option str.
Variable W : world.
Variable local : bool.
Variable client : Client.

Definition starts (pdf_path : Path) (e : event) : bool :=
  if local then starts_local pdf_path e else starts_cloud pdf_path e.

Ltac answer :=
  match goal with
  | |- context [@W ?R ?h ?c] =>
      let a := fresh "a" in
      let E := fresh "E" in
      destruct (@W R h c) as [a|a] eqn:E
  end.

Lemma extract_and_rename_events pdf_path h :
  exists t,
    fst (run W (extract_and_rename U environ local client pdf_path) h) = h ++ t
    /\ forallb (file_event local) t = true
    /\ existsb (starts pdf_path) t = true.
Proof.
  unfold extract_and_rename, invoice_date_of, starts.
  destruct local.
  - unfold extract_pdf_text_for_ollama_ai, ask_ollama_for_date, getenv.
    cbn [bind do run].
    answer; cbn [bind do run].
    2:{ eexists. split; [reflexivity|]. cbn. now rewrite str_eqb_refl. }
    destruct (environ (u "OLLAMA_API_URL")) as [url|];
      cbn [getenv_plus bind do run].
    2:{ eexists. split; [reflexivity|]. cbn. now rewrite str_eqb_refl. }
    answer; cbn [bind do run of_result].
    2:{ eexists. split; [rewrite <- ?app_assoc; reflexivity|].
        cbn. now rewrite str_eqb_refl. }
    destruct (json_response a0) as [field|e]; cbn [bind do run of_result].
    2:{ eexists. split; [rewrite <- ?app_assoc; reflexivity|].
        cbn. now rewrite str_eqb_refl. }
    unfold rename_pdf_with_date. cbn [bind do run print].
    answer; cbn [bind do run print];
      (eexists; split; [rewrite <- ?app_assoc; reflexivity|]);
      cbn; now rewrite str_eqb_refl.
  - unfold load_pdf_data_for_remote_ai, determine_invoice_date_remote_ai,
      first_text, getenv.
    cbn [bind do run].
    answer; cbn [bind do run].
    2:{ eexists. split; [reflexivity|]. cbn. now rewrite str_eqb_refl. }
    answer; cbn [bind do run].
    2:{ eexists. split; [rewrite <- ?app_assoc; reflexivity|].
        cbn. now rewrite str_eqb_refl. }
    destruct (content a0) as [|[text|class] rest]; cbn [bind do run].
    1,3: eexists; split; [rewrite <- ?app_assoc; reflexivity|];
         cbn; now rewrite str_eqb_refl.
    unfold rename_pdf_with_date. cbn [bind do run print].
    answer; cbn [bind do run print];
      (eexists; split; [rewrite <- ?app_assoc; reflexivity|]);
      cbn; now rewrite str_eqb_refl.
Qed.

Lemma process_pdf_file_events pdf_path h :
  exists t,
    run W (process_pdf_file U environ local client pdf_path) h = (h ++ t, inl tt)
    /\ forallb (file_event local) t = true
    /\ (is_already_formatted U (name pdf_path) = false ->
        existsb (starts pdf_path) t = true).
Proof.
  destruct (is_already_formatted U (name pdf_path)) eqn:F.
  - rewrite process_pdf_file_skip by assumption.
    eexists. split; [reflexivity|]. split; [reflexivity | discriminate].
  - rewrite process_pdf_file_run by assumption.
    destruct (extract_and_rename_events pdf_path h) as (t & Et & Ft & St).
    destruct (run W (extract_and_rename U environ local client pdf_path) h)
      as [h' [[]|e]]; simpl in Et; subst h'.
    + exists t. auto.
    + exists (t ++ [Printed (error_line pdf_path e)]).
      rewrite app_assoc. split; [reflexivity|].
      rewrite forallb_app, existsb_app, Ft, St. split; [|reflexivity].
      unfold file_event. destruct local; reflexivity.
Qed.

Lemma loop_events pdf_files : forall h,
  exists t,
    run W (for_each pdf_files (process_pdf_file U environ local client)) h
    = (h ++ t, inl tt)
    /\ forallb (file_event local) t = true
    /\ (forall pdf_path,
          In pdf_path pdf_files ->
          is_already_formatted U (name pdf_path) = false ->
          existsb (starts pdf_path) t = true).
Proof.
  induction pdf_files as [|p ps IH]; intros h.
  - exists []. rewrite app_nil_r. repeat split. intros ? [].
  - rewrite loop_step.
    destruct (process_pdf_file_events p h) as (t1 & E1 & F1 & S1).
    rewrite E1. cbn [fst].
    destruct (IH (h ++ t1)) as (t2 & E2 & F2 & S2).
    exists (t1 ++ t2). rewrite E2, app_assoc. split; [reflexivity|].
    rewrite forallb_app, F1, F2. split; [reflexivity|].
    intros q [<-|Hq] Fq; rewrite existsb_app.
    + now rewrite S1.
    + rewrite (S2 q Hq Fq). apply orb_true_r.
Qed.

End Loop.

(** What the selection policy says of a finished run [out]. *)
Definition selection_policy (U : unicode) (environ : str -> option str)
    (out : list event * result unit) : Prop :=
  let t := fst out in
  let local := local_selected environ t in
  (List.length (filter is_probe t) <= 1)%nat
  /\ (forall t1 e t2,
        t = t1 ++ e :: t2 -> is_probe e = true ->
        existsb is_per_file t1 = false)
  /\ (existsb is_probe t = true -> configured environ = true)
  /\ (existsb is_probe t = true -> snd out = inl tt)
  /\ (existsb is_local_call t = true -> local = true)
  /\ (existsb is_cloud_call t = true -> local = false)
  /\ (snd out = inl tt ->
      forall pdf_path,
        In pdf_path (listed t) ->
        is_already_formatted U (name pdf_path) = false ->
        existsb (starts local pdf_path) t = true).

Lemma existsb_in_app (P : event -> bool) t1 e t2 :
  P e = true -> existsb P (t1 ++ e :: t2) = true.
Proof.
  intros H. rewrite existsb_app. simpl. rewrite H. apply orb_true_r.
Qed.

(** A run that ended before the probe. *)
Lemma policy_early U environ (out : list event * result unit) :
  forallb early_event (fst out) = true ->
  (snd out = inl tt -> listed (fst out) = []) ->
  selection_policy U environ out.
Proof.
  intros F L.
  assert (Np : existsb is_probe (fst out) = false)
    by (apply (forallb_none _ _ _ early_event_no_probe F)).
  assert (Nl : existsb is_local_call (fst out) = false)
    by (apply (forallb_none _ _ _ early_event_no_local F)).
  assert (Nc : existsb is_cloud_call (fst out) = false)
    by (apply (forallb_none _ _ _ early_event_no_cloud F)).
  unfold selection_policy. cbv zeta.
  split; [|split; [|split; [|split; [|split; [|split]]]]]; try congruence.
  - rewrite (forallb_no_filter _ _ _ early_event_no_probe F). simpl. lia.
  - intros t1 e t2 E He. rewrite E, (@existsb_in_app is_probe t1 e t2 He) in Np.
    discriminate.
  - intros R p Hp. rewrite (L R) in Hp. destruct Hp.
Qed.

(** A run that reached the loop: [pre] before the selection, [sel] the
    selection, [loop] the files. *)
Lemma policy_loop U environ pre sel loop local :
  forallb early_event pre = true ->
  forallb (file_event local) loop = true ->
  ((sel = [] /\ local = false /\ configured environ = false)
   \/ (configured environ = true
       /\ exists url answer,
            sel = [Called (requests_get url 2) answer]
            /\ local = probe_200 (Called (requests_get url 2) answer))) ->
  (forall pdf_path,
     In pdf_path (listed pre) ->
     is_already_formatted U (name pdf_path) = false ->
     existsb (starts local pdf_path) loop = true) ->
  selection_policy U environ (pre ++ sel ++ loop, inl tt).
Proof.
  intros Fp Fl Hs St.
  pose proof (forallb_none _ _ _ early_event_no_probe Fp) as Pp.
  pose proof (forallb_none _ _ _ (file_event_no_probe local) Fl) as Pl.
  pose proof (forallb_none _ _ _ early_event_no_probe_200 Fp) as Qp.
  pose proof (forallb_none _ _ _ (file_event_no_probe_200 local) Fl) as Ql.
  pose proof (forallb_none _ _ _ early_event_no_local Fp) as Lp.
  pose proof (forallb_none _ _ _ early_event_no_cloud Fp) as Cp.
  pose proof (forallb_none _ _ _ early_event_no_per_file Fp) as Rp.
  assert (Hsel : local_selected environ (pre ++ sel ++ loop) = local
                 /\ existsb is_local_call sel = false
                 /\ existsb is_cloud_call sel = false
                 /\ listed sel = []
                 /\ (List.length (filter is_probe sel) <= 1)%nat
                 /\ (existsb is_probe sel = true -> configured environ = true)
                 /\ (forall t1 e t2,
                       pre ++ sel ++ loop = t1 ++ e :: t2 ->
                       is_probe e = true -> t1 = pre)).
  { unfold local_selected. rewrite !existsb_app, Qp, Ql.
    destruct Hs as [(-> & -> & C)|(C & url & answer & -> & ->)].
    - rewrite C. repeat split; try reflexivity; try (simpl; lia).
      intros t1 e t2 E He.
      assert (X : existsb is_probe (pre ++ [] ++ loop) = true)
        by (rewrite E; now apply existsb_in_app).
      rewrite !existsb_app, Pp, Pl in X. discriminate.
    - rewrite C. repeat split; try reflexivity; try (simpl; lia).
      + cbn [andb orb existsb]. now rewrite !orb_false_r.
      + intros t1 e t2 E He. simpl in E.
        eapply (@split_at_unique is_probe);
          [exact Pp | exact Pl | exact He | exact E]. }
  destruct Hsel as (Hl & Ls & Cs & Ds & Ns & Ps & Us).
  unfold selection_policy. cbn [fst snd]. cbv zeta. rewrite Hl.
  split; [|split; [|split; [|split; [|split; [|split]]]]].
  - rewrite !filter_app.
    rewrite (forallb_no_filter _ _ _ early_event_no_probe Fp).
    rewrite (forallb_no_filter _ _ _ (file_event_no_probe local) Fl).
    now rewrite app_nil_r.
  - intros t1 e t2 E He. now rewrite (Us _ _ _ E He).
  - rewrite !existsb_app, Pp, Pl, orb_false_r. exact Ps.
  - reflexivity.
  - rewrite !existsb_app, Lp, Ls. simpl. intros H.
    apply existsb_exists in H. destruct H as (e & Hin & He).
    rewrite forallb_forall in Fl. eapply file_event_local; eauto.
  - rewrite !existsb_app, Cp, Cs. simpl. intros H.
    apply existsb_exists in H. destruct H as (e & Hin & He).
    rewrite forallb_forall in Fl. eapply file_event_cloud; eauto.
  - intros _ p Hp F. unfold listed in Hp. rewrite !flat_map_app in Hp.
    fold (listed pre) (listed sel) (listed loop) in Hp.
    rewrite Ds, (file_events_not_listed _ _ Fl), app_nil_r in Hp.
    rewrite !existsb_app, (St p Hp F). now rewrite !orb_true_r.
Qed.

(** The probe of a run: a GET to [OLLAMA_API_URL + "/version"] with timeout
    2. *)
Definition probe_of (url : str) : call Response :=
  requests_get (url ++ u "/version") 2.

(** [ollama_is_available] in full: without one of the settings no call and
    [False]; with both the one probe, answered by the world, and [True]
    exactly for status 200. *)
Lemma ollama_is_available_exact environ (W : world) h :
  run W (ollama_is_available environ) h =
  match environ (u "OLLAMA_API_URL") with
  | Some url =>
      if configured environ
      then (h ++ [Called (probe_of url) (W _ h (probe_of url))],
            inl (probe_200 (Called (probe_of url) (W _ h (probe_of url)))))
      else (h, inl false)
  | None => (h, inl false)
  end.
Proof.
  unfold ollama_is_available, configured, getenv.
  destruct (environ (u "OLLAMA_API_URL")) as [[|c url]|] eqn:Eu; cbn [truthy];
    try reflexivity.
  destruct (environ (u "OLLAMA_MODEL")) as [[|c' model]|] eqn:Em; cbn [truthy];
    try reflexivity.
  unfold is_ollama_running, getenv. rewrite Eu.
  cbn [getenv_plus bind try_except do run andb]. unfold probe_of.
  now destruct (W Response h (requests_get ((c :: url) ++ u "/version") 2)).
Qed.

(** A run whose set-up succeeds and lists files: it ends normally, the files
    are the two listings, and the probe is made exactly when both settings
    are present, once, after the line about the files. *)
Lemma selection_in_listed_run U environ (W : world) directory
    client lower_case upper_case :
  let setup :=
    [Called load_dotenv (inl tt);
     Called (Anthropic (environ (u "ANTHROPIC_API_KEY"))) (inl client);
     Called (Path_glob (parse_path directory) (u "*.pdf")) (inl lower_case);
     Called (Path_glob (parse_path directory) (u "*.PDF")) (inl upper_case)] in
  let pre :=
    setup ++ [Printed (u "Found "
                       ++ str_of_nat (List.length (lower_case ++ upper_case))
                       ++ u " PDF files to process")] in
  let out := run W (process_pdf_directory U environ directory) [] in
  W _ [] load_dotenv = inl tt ->
  W _ (firstn 1 setup) (Anthropic (environ (u "ANTHROPIC_API_KEY")))
  = inl client ->
  W _ (firstn 2 setup) (Path_glob (parse_path directory) (u "*.pdf"))
  = inl lower_case ->
  W _ (firstn 3 setup) (Path_glob (parse_path directory) (u "*.PDF"))
  = inl upper_case ->
  lower_case ++ upper_case <> [] ->
  snd out = inl tt
  /\ listed (fst out) = lower_case ++ upper_case
  /\ (configured environ = false -> filter is_probe (fst out) = [])
  /\ (forall url,
        configured environ = true ->
        environ (u "OLLAMA_API_URL") = Some url ->
        filter is_probe (fst out)
        = [Called (probe_of url) (W _ pre (probe_of url))]).
Proof.
  intros setup pre out H1 H2 H3 H4 Hne. subst out.
  unfold process_pdf_directory, get_remote_ai_client, get_pdf_files, getenv.
  cbn [bind do run]. rewrite H1. cbn [bind do run app].
  cbn [firstn setup] in H2. rewrite H2. cbn [bind do run app].
  cbn [firstn setup] in H3. rewrite H3. cbn [bind do run app].
  cbn [firstn setup] in H4. rewrite H4. cbn [bind do run app].
  destruct (lower_case ++ upper_case) as [|p ps] eqn:Efiles; [congruence|].
  cbn [bind run print app]. rewrite run_bind.
  fold setup. change (setup ++ [Printed
     (u "Found " ++ str_of_nat (List.length (p :: ps))
      ++ u " PDF files to process")]) with pre.
  assert (Fp : filter is_probe pre = [] /\ listed pre = p :: ps).
  { subst pre setup. cbn. now rewrite app_nil_r, Efiles. }
  destruct Fp as [Fp Lp].
  rewrite ollama_is_available_exact.
  assert (Loop : forall sel b,
            filter is_probe sel = sel -> listed sel = [] ->
            let r := run W (for_each (p :: ps)
                              (process_pdf_file U environ b client))
                       (pre ++ sel) in
            snd r = inl tt /\ listed (fst r) = p :: ps
            /\ filter is_probe (fst r) = sel).
  { intros sel b Fs Ls r. subst r.
    destruct (loop_events U environ W b client (p :: ps) (pre ++ sel))
      as (loop & El & Fl & _).
    rewrite El. cbn [fst snd]. split; [reflexivity|].
    assert (LA : forall a b, listed (a ++ b) = listed a ++ listed b)
      by (intros; apply flat_map_app).
    rewrite !LA, !filter_app, Lp, Ls, Fp, Fs.
    rewrite (file_events_not_listed _ _ Fl).
    rewrite (forallb_no_filter _ _ _ (file_event_no_probe b) Fl).
    now rewrite !app_nil_r. }
  destruct (environ (u "OLLAMA_API_URL")) as [url|] eqn:Eu.
  - destruct (configured environ) eqn:C.
    + destruct (Loop [Called (probe_of url) (W _ pre (probe_of url))]
                  (probe_200 (Called (probe_of url) (W _ pre (probe_of url))))
                  eq_refl eq_refl) as (A & B & D).
      split; [exact A|]. split; [exact B|]. split; [discriminate|].
      intros url' _ E'. injection E' as <-. exact D.
    + destruct (Loop [] false eq_refl eq_refl) as (A & B & D).
      rewrite app_nil_r in A, B, D.
      split; [exact A|]. split; [exact B|]. split; [auto | discriminate].
  - assert (C : configured environ = false)
      by (unfold configured; now rewrite Eu).
    destruct (Loop [] false eq_refl eq_refl) as (A & B & D).
    rewrite app_nil_r in A, B, D.
    split; [exact A|]. split; [exact B|]. split; [auto|].
    intros url _ E'. discriminate.
Qed.

(** The probe that answered 200 is among the probes. *)
Lemma existsb_probe_200_filter (t : list event) :
  existsb probe_200 t = existsb probe_200 (filter is_probe t).
Proof.
  induction t as [|e t IH]; [reflexivity|].
  cbn [existsb filter]. rewrite IH.
  destruct e as [l|R c r]; [reflexivity|].
  destruct c; reflexivity.
Qed.

(** C5. In every run of the batch: the liveness probe is made at most once,
    before any backend call or rename, and only when [OLLAMA_API_URL] and
    [OLLAMA_MODEL] are both set; a run that made the probe ends without an
    exception whatever the probe did.  The calls of the local variant occur
    only in a run where both settings are present and the probe returned
    status 200, the calls of the cloud variant only in a run where that is
    not so, and every listed file that is not skipped gets the first call of
    the variant of its run.  Conversely, in a run whose set-up succeeds and
    whose two listings are not both empty, the batch ends normally and the
    files are those of the two listings; without one of the two settings no
    probe is made and the cloud variant is the one of the run; with both, the
    probe is made exactly once, it is the GET of [OLLAMA_API_URL + "/version"]
    with a timeout of 2 made right after the line about the number of files,
    and the local variant is the one of the run exactly when the world
    answers that GET with status 200. *)
Theorem backend_selection_policy (U : unicode) (environ : str -> option str)
    (W : world) (directory : str) :
  let out := run W (process_pdf_directory U environ directory) [] in
  let t := fst out in
  let local :=
    truthy (environ (u "OLLAMA_API_URL")) && truthy (environ (u "OLLAMA_MODEL"))
    && existsb probe_200 t in
  (List.length (filter is_probe t) <= 1)%nat
  /\ (forall t1 e t2,
        t = t1 ++ e :: t2 -> is_probe e = true ->
        existsb is_per_file t1 = false)
  /\ (existsb is_probe t = true ->
      truthy (environ (u "OLLAMA_API_URL")) = true
      /\ truthy (environ (u "OLLAMA_MODEL")) = true)
  /\ (existsb is_probe t = true -> snd out = inl tt)
  /\ (existsb is_local_call t = true -> local = true)
  /\ (existsb is_cloud_call t = true -> local = false)
  /\ (snd out = inl tt ->
      forall pdf_path,
        In pdf_path (listed t) ->
        is_already_formatted U (name pdf_path) = false ->
        existsb (if local then starts_local pdf_path
                 else starts_cloud pdf_path) t = true)
  /\ (forall client lower_case upper_case,
        let setup :=
          [Called load_dotenv (inl tt);
           Called (Anthropic (environ (u "ANTHROPIC_API_KEY"))) (inl client);
           Called (Path_glob (parse_path directory) (u "*.pdf"))
             (inl lower_case);
           Called (Path_glob (parse_path directory) (u "*.PDF"))
             (inl upper_case)] in
        let pre :=
          setup
          ++ [Printed (u "Found "
                       ++ str_of_nat (List.length (lower_case ++ upper_case))
                       ++ u " PDF files to process")] in
        W _ [] load_dotenv = inl tt ->
        W _ (firstn 1 setup) (Anthropic (environ (u "ANTHROPIC_API_KEY")))
        = inl client ->
        W _ (firstn 2 setup) (Path_glob (parse_path directory) (u "*.pdf"))
        = inl lower_case ->
        W _ (firstn 3 setup) (Path_glob (parse_path directory) (u "*.PDF"))
        = inl upper_case ->
        lower_case ++ upper_case <> [] ->
        snd out = inl tt
        /\ listed t = lower_case ++ upper_case
        /\ (truthy (environ (u "OLLAMA_API_URL"))
            && truthy (environ (u "OLLAMA_MODEL")) = false ->
            filter is_probe t = [] /\ local = false)
        /\ (forall url,
              truthy (environ (u "OLLAMA_API_URL"))
              && truthy (environ (u "OLLAMA_MODEL")) = true ->
              environ (u "OLLAMA_API_URL") = Some url ->
              filter is_probe t
              = [Called (probe_of url) (W _ pre (probe_of url))]
              /\ local = match W _ pre (probe_of url) with
                         | inl response => (status_code response =? 200)%Z
                         | inr _ => false
                         end)).
Proof.
  intros out t local.
  assert (P : selection_policy U environ out).
  { subst out.
    unfold process_pdf_directory, get_remote_ai_client, get_pdf_files, getenv.
    cbn [bind do run].
    destruct (W unit [] load_dotenv) as [[]|e1]; cbn [bind do run].
    2:{ apply policy_early; [reflexivity | discriminate]. }
    destruct (W Client _ (Anthropic (environ (u "ANTHROPIC_API_KEY"))))
      as [client|e2]; cbn [bind do run].
    2:{ apply policy_early; [reflexivity | discriminate]. }
    destruct (W (list Path) _ (Path_glob (parse_path directory) (u "*.pdf")))
      as [lower_case|e3]; cbn [bind do run].
    2:{ apply policy_early; [reflexivity | discriminate]. }
    destruct (W (list Path) _ (Path_glob (parse_path directory) (u "*.PDF")))
      as [upper_case|e4]; cbn [bind do run].
    2:{ apply policy_early; [reflexivity | discriminate]. }
    destruct (lower_case ++ upper_case) as [|p ps] eqn:Efiles.
    - apply policy_early; [reflexivity|]. intros _. cbn.
      now rewrite app_nil_r.
    - cbn [bind run print app]. rewrite run_bind.
      match goal with
      | |- context [run W (ollama_is_available environ) ?h] =>
          set (pre := h);
          destruct (ollama_is_available_run environ W pre)
            as (sel & b & Es & Hs)
      end.
      rewrite Es.
      destruct (loop_events U environ W b client (p :: ps) (pre ++ sel))
        as (loop & El & Fl & Sl).
      rewrite El, <- app_assoc.
      apply (@policy_loop U environ pre sel loop b); auto.
      intros q Hq. apply Sl. subst pre. cbn in Hq.
      rewrite app_nil_r, Efiles in Hq. exact Hq. }
  destruct P as (P1 & P2 & P3 & P4 & P5 & P6 & P7).
  fold t in P1, P2, P3, P4, P5, P6, P7.
  unfold local_selected, configured in P5, P6, P7.
  fold local in P5, P6, P7.
  split; [exact P1|]. split; [exact P2|].
  split; [intros H; apply P3 in H; unfold configured in H;
          now apply andb_true_iff in H|].
  split; [exact P4|]. split; [exact P5|]. split; [exact P6|].
  split.
  { intros R q Hq F. specialize (P7 R q Hq F). unfold starts in P7.
    destruct local; exact P7. }
  intros client lower_case upper_case setup pre H1 H2 H3 H4 Hne.
  destruct (@selection_in_listed_run U environ W directory client lower_case
              upper_case H1 H2 H3 H4 Hne) as (S1 & S2 & S3 & S4).
  fold out in S1, S2, S3, S4. fold t in S2, S3, S4.
  unfold configured in S3, S4. fold setup in S4. fold pre in S4.
  split; [exact S1|]. split; [exact S2|]. split.
  - intros C. split; [exact (S3 C)|]. unfold local. now rewrite C.
  - intros url C Eu. split; [exact (S4 url C Eu)|].
    unfold local. rewrite C, existsb_probe_200_filter, (S4 url C Eu).
    cbn [andb existsb]. rewrite orb_false_r. reflexivity.
Qed.

(** An Ollama server at the usual address that answers the date with white
    space around it. *)
Definition ollama_environ : str -> option str :=
  fun key =>
    if str_eqb key (u "OLLAMA_API_URL") then Some (u "http://localhost:11434/api")
    else if str_eqb key (u "OLLAMA_MODEL") then Some (u "llama3")
    else None.

Definition ollama_world : world :=
  table_world
    {| glob_pdf := [march_pdf];
       glob_PDF := [];
       get_answer :=
         inl {| status_code := 200;
                json_response := inr (Exception (u "'response'")) |};
       post_answer := fun _ =>
         inl {| status_code := 200;
                json_response := inl (u "  250315" ++ LF) |};
       pages_of := fun _ => inl [u "Invoice "; u "March 15, 2025"];
       bytes_of := fun _ => inr connection_error;
       message_for := fun _ => inr connection_error;
       rename_answer := fun _ _ => inl tt |}.

Lemma backend_selection_policy_witness :
  let t := fst (run ollama_world
                  (process_pdf_directory ascii_tables ollama_environ
                     (u "/inv")) []) in
  filter is_probe t
  = [Called (probe_of (u "http://localhost:11434/api"))
       (inl {| status_code := 200;
               json_response := inr (Exception (u "'response'")) |})]
  /\ truthy (ollama_environ (u "OLLAMA_API_URL"))
     && truthy (ollama_environ (u "OLLAMA_MODEL"))
     && existsb probe_200 t = true
  /\ listed t = [march_pdf].
Proof.
  intros t.
  pose proof (proj2 (proj2 (proj2 (proj2 (proj2 (proj2 (proj2
    (@backend_selection_policy ascii_tables ollama_environ ollama_world
       (u "/inv")))))))) (client_of_key None) [march_pdf] []
    eq_refl eq_refl eq_refl eq_refl) as P.
  cbv zeta in P.
  assert (Hne : [march_pdf] ++ [] <> []) by discriminate.
  destruct (P Hne) as (_ & L & _ & Q).
  assert (C : truthy (ollama_environ (u "OLLAMA_API_URL"))
              && truthy (ollama_environ (u "OLLAMA_MODEL")) = true)
    by (vm_compute; reflexivity).
  assert (Eu : ollama_environ (u "OLLAMA_API_URL")
               = Some (u "http://localhost:11434/api"))
    by (vm_compute; reflexivity).
  destruct (Q _ C Eu) as (F & Lc).
  split; [exact F|]. split; [exact Lc|]. exact L.
Defined.

(* ================================================================== *)
(** * Part 5. Further properties of the functions of [main.py] *)
(* ================================================================== *)

(** ** [is_ollama_running] *)

(** X1. [is_ollama_running] never raises.  Without [OLLAMA_API_URL] it makes
    no call and returns [False]; otherwise it makes one GET to the URL
    followed by [/version] with timeout 2, and returns [True] exactly when
    that call returned a response with status 200. *)
Theorem is_ollama_running_never_raises (environ : str -> option str)
    (W : world) (h : list event) :
  run W (is_ollama_running environ) h =
  match environ (u "OLLAMA_API_URL") with
  | None => (h, inl false)
  | Some url =>
      let answer := W _ h (requests_get (url ++ u "/version") 2) in
      (h ++ [Called (requests_get (url ++ u "/version") 2) answer],
       inl match answer with
           | inl response => (status_code response =? 200)%Z
           | inr _ => false
           end)
  end.
Proof.
  unfold is_ollama_running, getenv.
  destruct (environ (u "OLLAMA_API_URL")) as [url|]; [|reflexivity].
  cbn [getenv_plus bind try_except do run]. cbv zeta.
  now destruct (W Response h (requests_get (url ++ u "/version") 2)).
Qed.

(** ** [extract_pdf_text_for_ollama_ai] *)

Lemma fold_left_app_concat (doc : list str) (acc : str) :
  fold_left (fun pdf_text page => pdf_text ++ page) doc acc = acc ++ List.concat doc.
Proof.
  revert acc. induction doc as [|page doc IH]; intros acc; simpl.
  - now rewrite app_nil_r.
  - now rewrite IH, app_assoc.
Qed.

(** X2. [extract_pdf_text_for_ollama_ai] opens the document once and returns
    the texts of its pages joined in page order (the empty string for a
    document without pages); an exception of [fitz.open] is passed on. *)
Theorem extract_pdf_text_is_concatenation (W : world) (file_path : str)
    (h : list event) :
  run W (extract_pdf_text_for_ollama_ai file_path) h =
  (h ++ [Called (fitz_open file_path) (W _ h (fitz_open file_path))],
   match W _ h (fitz_open file_path) with
   | inl doc => inl (List.concat doc)
   | inr e => inr e
   end).
Proof.
  unfold extract_pdf_text_for_ollama_ai. cbn [bind do run].
  destruct (W (list str) h (fitz_open file_path)) as [doc|e]; cbn [bind do run];
    [|reflexivity].
  now rewrite fold_left_app_concat.
Qed.

(** ** What a date extraction leaves behind *)

(** The calls of the two backends. *)
Definition is_backend_call (e : event) : bool :=
  is_local_call e || is_cloud_call e.

Lemma invoice_date_of_events U environ (W : world) available client pdf_path h :
  exists t,
    fst (run W (invoice_date_of U environ available client pdf_path) h) = h ++ t
    /\ forallb is_backend_call t = true.
Proof.
  unfold invoice_date_of. destruct available.
  - unfold extract_pdf_text_for_ollama_ai, ask_ollama_for_date, getenv.
    cbn [bind do run].
    destruct (W (list str) h (fitz_open (path_str pdf_path))) as [doc|e];
      cbn [bind do run].
    2:{ eexists. split; reflexivity. }
    destruct (environ (u "OLLAMA_API_URL")) as [url|];
      cbn [getenv_plus bind do run].
    2:{ eexists. split; reflexivity. }
    match goal with
    | |- context [W Response ?h' ?c] =>
        destruct (W Response h' c) as [response|e]
    end; cbn [bind do run of_result].
    2:{ eexists. split; [rewrite <- app_assoc|]; reflexivity. }
    destruct (json_response response) as [field|e]; cbn [bind do run of_result];
      eexists; (split; [rewrite <- app_assoc|]; reflexivity).
  - unfold load_pdf_data_for_remote_ai, determine_invoice_date_remote_ai,
      first_text, getenv.
    cbn [bind do run].
    destruct (W (list N) h (read_binary (path_str pdf_path))) as [data|e];
      cbn [bind do run].
    2:{ eexists. split; reflexivity. }
    match goal with
    | |- context [W Message ?h' ?c] =>
        destruct (W Message h' c) as [m|e]
    end; cbn [bind do run].
    2:{ eexists. split; [rewrite <- app_assoc|]; reflexivity. }
    destruct (content m) as [|[text|class] rest]; cbn [bind do run];
      eexists; (split; [rewrite <- app_assoc|]; reflexivity).
Qed.

(** ** The three outcomes of a file *)

(** The ways the loop body can end. *)
Lemma process_pdf_file_outcomes (U : unicode) (environ : str -> option str)
    (W : world) (available : bool) (client : Client) (pdf_path : Path)
    (h : list event) :
  exists t,
    run W (process_pdf_file U environ available client pdf_path) h
    = (h ++ t, inl tt)
    /\ ((is_already_formatted U (name pdf_path) = true
         /\ t = [Printed (skip_line pdf_path)])
        \/ (is_already_formatted U (name pdf_path) = false
            /\ exists calls, forallb is_backend_call calls = true
               /\ ((exists s,
                      t = calls
                          ++ [Called (Path_rename pdf_path (new_path U pdf_path s))
                                (inl tt);
                              Printed (renamed_line pdf_path
                                         (new_path U pdf_path s))])
                   \/ (exists s e,
                         t = calls
                             ++ [Called (Path_rename pdf_path
                                           (new_path U pdf_path s)) (inr e);
                                 Printed (error_line pdf_path e)])
                   \/ (exists e,
                         t = calls ++ [Printed (error_line pdf_path e)])))).
Proof.
  destruct (is_already_formatted U (name pdf_path)) eqn:F.
  - exists [Printed (skip_line pdf_path)].
    rewrite process_pdf_file_skip by assumption. auto.
  - destruct (invoice_date_of_events U environ W available client pdf_path h)
      as (calls & Ec & Fc).
    destruct (run W (invoice_date_of U environ available client pdf_path) h)
      as [h1 [s|e]] eqn:D; simpl in Ec; subst h1.
    + rewrite (process_pdf_file_renames U environ W client available
                 pdf_path h F D).
      destruct (W unit (h ++ calls)
                  (Path_rename pdf_path (new_path U pdf_path s)))
        as [[]|e] eqn:R.
      * eexists. split; [rewrite <- app_assoc; reflexivity|].
        right. split; [reflexivity|]. exists calls. split; [assumption|].
        left. now exists s.
      * eexists. split; [rewrite <- app_assoc; reflexivity|].
        right. split; [reflexivity|]. exists calls. split; [assumption|].
        right. left. now exists s, e.
    + rewrite process_pdf_file_run by assumption.
      unfold extract_and_rename. rewrite run_bind, D.
      eexists. split; [rewrite <- app_assoc; reflexivity|].
      right. split; [reflexivity|]. exists calls. split; [assumption|].
      right. right. now exists e.
Qed.

Lemma rename_pdf_with_date_strict U (W : world) (S : stdout) pdf_path s h :
  let target := new_path U pdf_path s in
  run_strict W S (rename_pdf_with_date U pdf_path s) h =
  match W unit h (Path_rename pdf_path target) with
  | inl _ =>
      match S (h ++ [Called (Path_rename pdf_path target) (inl tt)])
              (renamed_line pdf_path target) with
      | inl _ => (h ++ [Called (Path_rename pdf_path target) (inl tt);
                        Printed (renamed_line pdf_path target)], inl tt)
      | inr e => (h ++ [Called (Path_rename pdf_path target) (inl tt)], inr e)
      end
  | inr e => (h ++ [Called (Path_rename pdf_path target) (inr e)], inr e)
  end.
Proof.
  intros target. unfold rename_pdf_with_date. fold target.
  cbn [bind do run_strict].
  destruct (W unit h (Path_rename pdf_path target)) as [[]|e];
    cbn [bind run_strict]; [|reflexivity].
  rewrite run_strict_print. fold (renamed_line pdf_path target).
  destruct (S (h ++ [Called (Path_rename pdf_path target) (inl tt)])
              (renamed_line pdf_path target)) as [[]|e]; [|reflexivity].
  now rewrite <- app_assoc.
Qed.

(** The ways the [try] block of the loop body can raise: [block] is what it
    added to the history [h] before, [e] the exception. *)
Definition try_block_raised (U : unicode) (S : stdout) (pdf_path : Path)
    (h block : list event) (e : exn) : Prop :=
  (is_already_formatted U (name pdf_path) = true
   /\ block = [] /\ S h (skip_line pdf_path) = inr e)
  \/ (is_already_formatted U (name pdf_path) = false
      /\ exists calls,
           forallb is_backend_call calls = true
           /\ (block = calls
               \/ (exists s,
                     block = calls
                             ++ [Called (Path_rename pdf_path
                                           (new_path U pdf_path s)) (inr e)])
               \/ (exists s,
                     block = calls
                             ++ [Called (Path_rename pdf_path
                                           (new_path U pdf_path s)) (inl tt)]
                     /\ S (h ++ block)
                          (renamed_line pdf_path (new_path U pdf_path s))
                        = inr e))).

(** The ways the loop body can end when [print] may raise. *)
Lemma process_pdf_file_strict_outcomes (U : unicode)
    (environ : str -> option str) (W : world) (S : stdout) (available : bool)
    (client : Client) (pdf_path : Path) (h : list event) :
  exists t r,
    run_strict W S (process_pdf_file U environ available client pdf_path) h
    = (h ++ t, r)
    /\ ((is_already_formatted U (name pdf_path) = true
         /\ S h (skip_line pdf_path) = inl tt
         /\ t = [Printed (skip_line pdf_path)] /\ r = inl tt)
        \/ (is_already_formatted U (name pdf_path) = false
            /\ exists calls s,
                 forallb is_backend_call calls = true
                 /\ t = calls
                        ++ [Called (Path_rename pdf_path
                                      (new_path U pdf_path s)) (inl tt);
                            Printed (renamed_line pdf_path
                                       (new_path U pdf_path s))]
                 /\ r = inl tt)
        \/ (exists block e,
              try_block_raised U S pdf_path h block e
              /\ ((S (h ++ block) (error_line pdf_path e) = inl tt
                   /\ t = block ++ [Printed (error_line pdf_path e)]
                   /\ r = inl tt)
                  \/ (exists e',
                        S (h ++ block) (error_line pdf_path e) = inr e'
                        /\ t = block /\ r = inr e')))).
Proof.
  assert (Handler : forall block e,
            try_block_raised U S pdf_path h block e ->
            exists t r,
              run_strict W S (print (error_line pdf_path e)) (h ++ block)
              = (h ++ t, r)
              /\ exists block e,
                   try_block_raised U S pdf_path h block e
                   /\ ((S (h ++ block) (error_line pdf_path e) = inl tt
                        /\ t = block ++ [Printed (error_line pdf_path e)]
                        /\ r = inl tt)
                       \/ (exists e',
                             S (h ++ block) (error_line pdf_path e) = inr e'
                             /\ t = block /\ r = inr e'))).
  { intros block e T. rewrite run_strict_print.
    destruct (S (h ++ block) (error_line pdf_path e)) as [[]|e'] eqn:P.
    - exists (block ++ [Printed (error_line pdf_path e)]), (inl tt).
      rewrite app_assoc. split; [reflexivity|].
      exists block, e. split; [exact T|]. left. auto.
    - exists block, (inr e'). split; [reflexivity|].
      exists block, e. split; [exact T|]. right. exists e'. auto. }
  destruct (is_already_formatted U (name pdf_path)) eqn:F.
  - unfold process_pdf_file. rewrite F, run_strict_try_except, run_strict_print.
    destruct (S h (skip_line pdf_path)) as [[]|e] eqn:P.
    + exists [Printed (skip_line pdf_path)], (inl tt).
      split; [reflexivity|]. left. auto.
    + destruct (Handler [] e) as (t & r & E & X).
      { left. auto. }
      rewrite app_nil_r in E. exists t, r. split; [exact E|]. right. right.
      exact X.
  - rewrite process_pdf_file_strict by assumption.
    unfold extract_and_rename. rewrite run_strict_bind.
    rewrite (no_print_run_strict W S
               (invoice_date_of_no_print U environ available client pdf_path)).
    destruct (invoice_date_of_events U environ W available client pdf_path h)
      as (calls & Ec & Fc).
    destruct (run W (invoice_date_of U environ available client pdf_path) h)
      as [h1 [s|e]] eqn:D; simpl in Ec; subst h1.
    + rewrite rename_pdf_with_date_strict.
      destruct (W unit (h ++ calls)
                  (Path_rename pdf_path (new_path U pdf_path s)))
        as [[]|e] eqn:R.
      * destruct (S ((h ++ calls)
                     ++ [Called (Path_rename pdf_path (new_path U pdf_path s))
                           (inl tt)])
                    (renamed_line pdf_path (new_path U pdf_path s)))
          as [[]|e] eqn:P.
        -- eexists. exists (inl tt). split.
           { rewrite <- !app_assoc. reflexivity. }
           right. left. split; [reflexivity|]. exists calls, s. auto.
        -- destruct (Handler
                       (calls ++ [Called (Path_rename pdf_path
                                            (new_path U pdf_path s)) (inl tt)])
                       e) as (t & r & E & X).
           { right. split; [exact F|]. exists calls. split; [exact Fc|].
             right. right. exists s. split; [reflexivity|].
             rewrite app_assoc. exact P. }
           rewrite app_assoc in E. rewrite run_strict_print in E.
           exists t, r. split; [exact E|]. right. right. exact X.
      * destruct (Handler
                    (calls ++ [Called (Path_rename pdf_path
                                         (new_path U pdf_path s)) (inr e)])
                    e) as (t & r & E & X).
        { right. split; [exact F|]. exists calls. split; [exact Fc|].
          right. left. exists s. reflexivity. }
        rewrite app_assoc in E. rewrite run_strict_print in E.
        exists t, r. split; [exact E|]. right. right. exact X.
    + destruct (Handler calls e) as (t & r & E & X).
      { right. split; [exact F|]. exists calls. split; [exact Fc|].
        left. reflexivity. }
      rewrite run_strict_print in E.
      exists t, r. split; [exact E|]. right. right. exact X.
Qed.


(** ** Accounting for a whole batch *)

(** The calls made before the files are known: [load_dotenv], the client,
    the two listings. *)
Definition is_setup_event (e : event) : bool :=
  match e with
  | Called load_dotenv _ => true
  | Called (Anthropic _) _ => true
  | Called (Path_glob _ _) _ => true
  | _ => false
  end.

Lemma backend_calls_silent calls :
  forallb is_backend_call calls = true ->
  printed calls = [] /\ renames calls = [] /\ listed calls = [].
Proof.
  induction calls as [|e calls IH]; simpl; [auto|].
  rewrite andb_true_iff. intros [He Hc].
  destruct (IH Hc) as (P & R & L). rewrite P, R, L.
  unfold is_backend_call in He.
  destruct e as [?|? [] ?]; cbn in *; try discriminate; auto.
Qed.

Lemma printed_app a b : printed (a ++ b) = printed a ++ printed b.
Proof. apply flat_map_app. Qed.

Lemma renames_app a b : renames (a ++ b) = renames a ++ renames b.
Proof. apply flat_map_app. Qed.

Lemma listed_app a b : listed (a ++ b) = listed a ++ listed b.
Proof. apply flat_map_app. Qed.

Section Accounting.

Variable U : unicode.
Variable environ : str -> option str.
Variable W : world.
Variable local : bool.
Variable client : Client.

(** What one file may add to the history. *)
Definition file_account (pdf_path : Path) (t : list event) : Prop :=
  List.length (printed t) = 1%nat
  /\ listed t = []
  /\ (renames t = []
      \/ (is_already_formatted U (name pdf_path) = false
          /\ exists s, renames t = [(pdf_path, new_path U pdf_path s)])).

Lemma process_pdf_file_account pdf_path h :
  exists t,
    run W (process_pdf_file U environ local client pdf_path) h = (h ++ t, inl tt)
    /\ file_account pdf_path t.
Proof.
  destruct (process_pdf_file_outcomes U environ W local client pdf_path h)
    as (t & E & O).
  exists t. split; [exact E|]. unfold file_account.
  destruct O as [(_ & ->)|(F & calls & Fc & O)]; [cbn; auto|].
  destruct (backend_calls_silent _ Fc) as (P & R & L).
  destruct O as [(s & ->)|[(s & e & ->)|(e & ->)]];
    rewrite printed_app, renames_app, listed_app, P, R, L; cbn;
    repeat split; eauto.
Qed.

Lemma loop_account pdf_files : forall h,
  exists t,
    run W (for_each pdf_files (process_pdf_file U environ local client)) h
    = (h ++ t, inl tt)
    /\ List.length (printed t) = List.length pdf_files
    /\ listed t = []
    /\ (List.length (renames t) <= List.length pdf_files)%nat
    /\ (forall src dst,
          In (src, dst) (renames t) ->
          In src pdf_files
          /\ is_already_formatted U (name src) = false
          /\ exists s, dst = new_path U src s).
Proof.
  induction pdf_files as [|p ps IH]; intros h.
  - exists []. rewrite app_nil_r. cbn. repeat split; auto; contradiction.
  - rewrite loop_step.
    destruct (process_pdf_file_account p h) as (t1 & E1 & P1 & L1 & R1).
    rewrite E1. cbn [fst].
    destruct (IH (h ++ t1)) as (t2 & E2 & P2 & L2 & N2 & R2).
    exists (t1 ++ t2). rewrite E2, app_assoc. split; [reflexivity|].
    rewrite printed_app, listed_app, renames_app, !length_app, P1, P2, L1, L2.
    split; [reflexivity|]. split; [reflexivity|]. split.
    + destruct R1 as [->|(_ & s & ->)]; simpl; lia.
    + intros src dst Hin. apply in_app_or in Hin. destruct Hin as [Hin|Hin].
      * destruct R1 as [R1|(F & s & R1)]; rewrite R1 in Hin; [destruct Hin|].
        destruct Hin as [Hin|[]]. injection Hin as <- <-.
        split; [now left|]. split; [assumption|]. now exists s.
      * destruct (R2 src dst Hin) as (I & F & S). split; [now right | auto].
Qed.

End Accounting.

(** The three shapes of a run of the batch. *)
Lemma batch_shape U environ (W : world) directory :
  let out := run W (process_pdf_directory U environ directory) [] in
  (exists e t0 R (c : call R),
      snd out = inr e /\ fst out = t0 ++ [Called c (inr e)]
      /\ forallb is_setup_event (fst out) = true)
  \/ (exists setup,
        snd out = inl tt /\ forallb is_setup_event setup = true
        /\ listed setup = []
        /\ fst out
           = setup ++ [Printed (u "No PDF files found in directory: "
                                ++ directory)])
  \/ (exists setup found sel local client loop,
        snd out = inl tt /\ forallb is_setup_event setup = true
        /\ listed setup <> []
        /\ (sel = [] \/ exists url a, sel = [Called (requests_get url 2) a])
        /\ fst out = (setup ++ [Printed found] ++ sel) ++ loop
        /\ run W (for_each (listed setup)
                    (process_pdf_file U environ local client))
             (setup ++ [Printed found] ++ sel)
           = ((setup ++ [Printed found] ++ sel) ++ loop, inl tt)).
Proof.
  intros out. subst out.
  unfold process_pdf_directory, get_remote_ai_client, get_pdf_files, getenv.
  cbn [bind do run].
  destruct (W unit [] load_dotenv) as [[]|e1]; cbn [bind do run].
  2:{ left. exists e1, []. do 2 eexists. repeat split. }
  destruct (W Client _ (Anthropic (environ (u "ANTHROPIC_API_KEY"))))
    as [client|e2]; cbn [bind do run].
  2:{ left. exists e2. eexists. do 2 eexists. repeat split. }
  destruct (W (list Path) _ (Path_glob (parse_path directory) (u "*.pdf")))
    as [lower_case|e3]; cbn [bind do run].
  2:{ left. exists e3. eexists. do 2 eexists. repeat split. }
  destruct (W (list Path) _ (Path_glob (parse_path directory) (u "*.PDF")))
    as [upper_case|e4]; cbn [bind do run].
  2:{ left. exists e4. eexists. do 2 eexists. repeat split. }
  match goal with
  | |- context [run W _ ?h] => set (setup := h)
  end.
  assert (Ls : listed setup = lower_case ++ upper_case)
    by (subst setup; cbn; now rewrite app_nil_r).
  assert (Fs : forallb is_setup_event setup = true) by reflexivity.
  clearbody setup.
  destruct (lower_case ++ upper_case) as [|p ps] eqn:Efiles.
  - right. left. exists setup. repeat split; auto.
  - right. right. cbn [bind run print]. rewrite run_bind.
    match goal with
    | |- context [run W (ollama_is_available environ) ?h'] =>
        destruct (ollama_is_available_run environ W h')
          as (sel & b & Es & Hs)
    end.
    rewrite Es.
    destruct (loop_events U environ W b client (p :: ps)
                ((setup ++ [Printed (u "Found " ++ str_of_nat
                                       (List.length (p :: ps))
                                     ++ u " PDF files to process")]) ++ sel))
      as (loop & El & _).
    rewrite El. rewrite <- (app_assoc setup) in *. 
    exists setup. do 2 eexists. exists b, client, loop.
    rewrite Ls. cbn [fst snd].
    split; [reflexivity|]. split; [assumption|]. split; [discriminate|].
    split; [|split; [reflexivity | exact El]].
    destruct Hs as [(-> & _)|(_ & url & a & -> & _)]; eauto.
Qed.

Lemma setup_events_silent t :
  forallb is_setup_event t = true ->
  printed t = [] /\ renames t = []
  /\ existsb is_probe t = false /\ existsb is_per_file t = false.
Proof.
  induction t as [|e t IH]; simpl; [auto|].
  rewrite andb_true_iff. intros [He Ht].
  destruct (IH Ht) as (P & R & Q & F). rewrite P, R, Q, F.
  unfold is_per_file.
  destruct e as [?|? [] ?]; cbn in *; try discriminate; auto.
Qed.

Lemma try_block_raised_silent U (S : stdout) pdf_path h block e :
  try_block_raised U S pdf_path h block e -> listed block = [].
Proof.
  intros [(_ & -> & _)|(_ & calls & Fc & T)]; [reflexivity|].
  destruct (backend_calls_silent _ Fc) as (_ & _ & L).
  destruct T as [->|[(s & ->)|(s & -> & _)]]; [exact L| |];
    rewrite listed_app, L; reflexivity.
Qed.

(** What one file adds when [print] may raise: no listing; and an exception
    that leaves the body is the one [print] raised for the error line. *)
Lemma process_pdf_file_strict_account U environ (W : world) (S : stdout)
    available client pdf_path h :
  exists t r,
    run_strict W S (process_pdf_file U environ available client pdf_path) h
    = (h ++ t, r)
    /\ listed t = []
    /\ (forall e, r = inr e ->
        exists e0, S (h ++ t) (error_line pdf_path e0) = inr e).
Proof.
  destruct (process_pdf_file_strict_outcomes U environ W S available client
              pdf_path h)
    as (t & r & E
        & [(F & P & -> & ->)
          |[(F & calls & s & Fc & -> & ->)
           |(block & e & T & [(P & -> & ->)|(e' & P & -> & ->)])]]);
    eexists; eexists; (split; [exact E|]).
  - split; [reflexivity|]. discriminate.
  - destruct (backend_calls_silent _ Fc) as (_ & _ & L).
    rewrite listed_app, L. split; [reflexivity|]. discriminate.
  - rewrite listed_app, (try_block_raised_silent T).
    split; [reflexivity|]. discriminate.
  - split; [exact (try_block_raised_silent T)|].
    intros x X. injection X as <-. now exists e.
Qed.

(** The loop when [print] may raise. *)
Lemma loop_strict U environ (W : world) (S : stdout) available client
    pdf_files : forall h,
  exists t r,
    run_strict W S
      (for_each pdf_files (process_pdf_file U environ available client)) h
    = (h ++ t, r)
    /\ listed t = []
    /\ (forall e, r = inr e ->
        exists pdf_path e0,
          In pdf_path pdf_files
          /\ S (h ++ t) (error_line pdf_path e0) = inr e).
Proof.
  induction pdf_files as [|p ps IH]; intros h.
  - exists [], (inl tt). rewrite app_nil_r.
    split; [reflexivity|]. split; [reflexivity|]. discriminate.
  - cbn [for_each]. rewrite run_strict_bind.
    destruct (process_pdf_file_strict_account U environ W S available client
                p h) as (t1 & r1 & E1 & L1 & X1).
    rewrite E1. destruct r1 as [[]|e1].
    + destruct (IH (h ++ t1)) as (t2 & r2 & E2 & L2 & X2).
      exists (t1 ++ t2), r2. rewrite E2, app_assoc.
      split; [reflexivity|]. rewrite listed_app, L1, L2.
      split; [reflexivity|].
      intros e He. destruct (X2 e He) as (q & e0 & Hq & P).
      exists q, e0. split; [now right | exact P].
    + exists t1, (inr e1). split; [reflexivity|]. split; [exact L1|].
      intros e He. destruct (X1 e He) as (e0 & P).
      exists p, e0. split; [now left | exact P].
Qed.

(** X4. Where an exception that leaves the batch comes from.  When
    [process_pdf_directory] ends with an exception [e], either [e] was raised
    by the last call made, which is [load_dotenv], the construction of the
    client, or one of the two directory listings, and then nothing was
    printed, no probe and no backend call was made and no file was renamed;
    or [e] was raised by a [print]: of the line about the directory (no
    files, or how many), before anything was printed, or of the error line
    of a listed file, in the handler.  An exception of a backend call or of
    a rename never leaves the function itself. *)
Theorem batch_exception_origin (U : unicode) (environ : str -> option str)
    (W : world) (S : stdout) (directory : str) (e : exn) :
  let out := run_strict W S (process_pdf_directory U environ directory) [] in
  snd out = inr e ->
  ((exists t0 R (c : call R), fst out = t0 ++ [Called c (inr e)])
   /\ forallb is_setup_event (fst out) = true
   /\ printed (fst out) = []
   /\ renames (fst out) = []
   /\ existsb is_probe (fst out) = false
   /\ existsb is_per_file (fst out) = false)
  \/ (exists line,
        S (fst out) line = inr e
        /\ ((line = u "No PDF files found in directory: " ++ directory
             /\ listed (fst out) = [] /\ printed (fst out) = [])
            \/ (line = u "Found "
                       ++ str_of_nat (List.length (listed (fst out)))
                       ++ u " PDF files to process"
                /\ printed (fst out) = [])
            \/ (exists pdf_path e0,
                  In pdf_path (listed (fst out))
                  /\ line = error_line pdf_path e0))).
Proof.
  intros out. subst out.
  assert (Early : forall t0 R (c : call R),
            forallb is_setup_event (t0 ++ [Called c (@inr R exn e)]) = true ->
            (exists t1 R' (c' : call R'),
                t0 ++ [Called c (inr e)] = t1 ++ [Called c' (inr e)])
            /\ forallb is_setup_event (t0 ++ [Called c (@inr R exn e)]) = true
            /\ printed (t0 ++ [Called c (@inr R exn e)]) = []
            /\ renames (t0 ++ [Called c (@inr R exn e)]) = []
            /\ existsb is_probe (t0 ++ [Called c (@inr R exn e)]) = false
            /\ existsb is_per_file (t0 ++ [Called c (@inr R exn e)]) = false).
  { intros t0 R c F. split; [now exists t0, R, c|]. split; [exact F|].
    destruct (setup_events_silent _ F) as (P & Rn & Q & Pf). auto. }
  unfold process_pdf_directory, get_remote_ai_client, get_pdf_files, getenv.
  cbn [bind do run_strict].
  destruct (W unit [] load_dotenv) as [[]|e1]; cbn [bind do run_strict].
  2:{ cbn [fst snd]. intros H. injection H as ->. left.
      apply (Early [] _ load_dotenv). reflexivity. }
  destruct (W Client _ (Anthropic (environ (u "ANTHROPIC_API_KEY"))))
    as [client|e2]; cbn [bind do run_strict].
  2:{ cbn [fst snd]. intros H. injection H as ->. left.
      apply (Early [_] _ (Anthropic (environ (u "ANTHROPIC_API_KEY")))).
      reflexivity. }
  destruct (W (list Path) _ (Path_glob (parse_path directory) (u "*.pdf")))
    as [lower_case|e3]; cbn [bind do run_strict].
  2:{ cbn [fst snd]. intros H. injection H as ->. left.
      apply (Early [_; _] _ (Path_glob (parse_path directory) (u "*.pdf"))).
      reflexivity. }
  destruct (W (list Path) _ (Path_glob (parse_path directory) (u "*.PDF")))
    as [upper_case|e4]; cbn [bind do run_strict].
  2:{ cbn [fst snd]. intros H. injection H as ->. left.
      apply (Early [_; _; _] _
               (Path_glob (parse_path directory) (u "*.PDF"))).
      reflexivity. }
  match goal with
  | |- context [run_strict W S _ ?h] => set (setup := h)
  end.
  assert (Ls : listed setup = lower_case ++ upper_case)
    by (subst setup; cbn; now rewrite app_nil_r).
  assert (Ps : printed setup = []) by reflexivity.
  clearbody setup.
  destruct (lower_case ++ upper_case) as [|p ps] eqn:Efiles.
  - rewrite run_strict_print.
    destruct (S setup (u "No PDF files found in directory: " ++ directory))
      as [[]|e'] eqn:P; cbn [fst snd]; [discriminate|].
    intros H. injection H as ->. right. eexists. split; [exact P|].
    left. auto.
  - rewrite run_strict_bind, run_strict_print.
    destruct (S setup (u "Found " ++ str_of_nat (List.length (p :: ps))
                       ++ u " PDF files to process")) as [[]|e'] eqn:P.
    2:{ cbn [fst snd]. intros H. injection H as ->. right. eexists.
        split; [exact P|]. right. left. rewrite Ls. auto. }
    rewrite run_strict_bind.
    rewrite (no_print_run_strict W S (ollama_is_available_no_print environ)).
    match goal with
    | |- context [run W (ollama_is_available environ) ?h'] =>
        destruct (ollama_is_available_run environ W h')
          as (sel & b & Es & Hs)
    end.
    rewrite Es.
    match goal with
    | |- context [run_strict W S (for_each _ _) ?h'] =>
        destruct (loop_strict U environ W S b client (p :: ps) h')
          as (loop & r & El & Ll & Xl)
    end.
    rewrite El. cbn [fst snd]. intros H.
    destruct (Xl e H) as (q & e0 & Hq & Pq).
    right. exists (error_line q e0). split; [exact Pq|].
    right. right. exists q, e0. split; [|reflexivity].
    assert (Lsel : listed sel = []).
    { destruct Hs as [(-> & _)|(_ & url & a & -> & _)]; reflexivity. }
    rewrite !listed_app, Ls, Lsel, Ll. cbn. now rewrite !app_nil_r.
Qed.

Lemma batch_exception_origin_witness :
  snd (run_strict maerz_world utf8_stdout
         (process_pdf_directory ascii_tables no_environ (u "/inv")) [])
  = inr (Exception
           (u "'utf-8' codec can't encode character '\udce4' in position 23: surrogates not allowed"))
  /\ exists line pdf_path e0,
       utf8_stdout
         (fst (run_strict maerz_world utf8_stdout
                 (process_pdf_directory ascii_tables no_environ (u "/inv"))
                 []))
         line
       = inr (Exception
                (u "'utf-8' codec can't encode character '\udce4' in position 23: surrogates not allowed"))
       /\ In pdf_path [maerz_pdf; march_pdf]
       /\ line = error_line pdf_path e0.
Proof.
  assert (H : snd (run_strict maerz_world utf8_stdout
                     (process_pdf_directory ascii_tables no_environ (u "/inv"))
                     [])
              = inr (Exception
                       (u "'utf-8' codec can't encode character '\udce4' in position 23: surrogates not allowed")))
    by (vm_compute; reflexivity).
  split; [exact H|].
  assert (L : listed
                (fst (run_strict maerz_world utf8_stdout
                        (process_pdf_directory ascii_tables no_environ
                           (u "/inv")) []))
              = [maerz_pdf; march_pdf])
    by (vm_compute; reflexivity).
  destruct (@batch_exception_origin ascii_tables no_environ maerz_world
              utf8_stdout (u "/inv") _ H)
    as [(_ & _ & P & _)|(line & Q & [(_ & _ & P)|[(_ & P)|(q & e0 & I & E)]])].
  - vm_compute in P. discriminate P.
  - vm_compute in P. discriminate P.
  - vm_compute in P. discriminate P.
  - exists line, q, e0. rewrite L in I. auto.
Defined.

(** X5. A batch that ends normally prints one line more than it listed
    files: the line about the directory (how many files, or none), and one
    line for each listed file, whether skipped, renamed or failed. *)
Theorem one_line_per_file (U : unicode) (environ : str -> option str)
    (W : world) (directory : str) :
  let out := run W (process_pdf_directory U environ directory) [] in
  snd out = inl tt ->
  List.length (printed (fst out)) = S (List.length (listed (fst out))).
Proof.
  intros out H.
  destruct (batch_shape U environ W directory)
    as [(e' & t0 & R & c & E & _)
       |[(setup & _ & F & L & E)
        |(setup & found & sel & local & client & loop
          & _ & F & _ & S & E & Rn)]];
    fold out in E; try congruence.
  - destruct (setup_events_silent _ F) as (P & _).
    rewrite E, printed_app, listed_app, P, L. reflexivity.
  - destruct (setup_events_silent _ F) as (P & _).
    destruct (loop_account U environ W local client (listed setup)
                (setup ++ [Printed found] ++ sel))
      as (t & Et & Pt & Lt & _).
    rewrite Rn in Et. injection Et as Et. apply app_inv_head in Et. subst t.
    rewrite E, !printed_app, !listed_app, P, Lt, !length_app, Pt.
    destruct S as [->|(url & a & ->)]; cbn; lia.
Qed.

Lemma one_line_per_file_witness :
  List.length
    (printed
       (fst (run flaky_world
               (process_pdf_directory ascii_tables no_environ (u "/inv")) [])))
  = 3%nat.
Proof.
  assert (H : snd (run flaky_world
                     (process_pdf_directory ascii_tables no_environ (u "/inv"))
                     []) = inl tt)
    by (vm_compute; reflexivity).
  rewrite (@one_line_per_file ascii_tables no_environ flaky_world (u "/inv") H).
  vm_compute. reflexivity.
Defined.

(** X6. The batch renames nothing but the files it listed: every rename in a
    run has a listed file that is not in canonical form as its source and
    [new_path] of that file, for some date string, as its target; there are
    no more renames than listed files, and no other call changes the file
    system. *)
Theorem renames_only_listed_files (U : unicode)
    (environ : str -> option str) (W : world) (directory : str) :
  let out := run W (process_pdf_directory U environ directory) [] in
  (List.length (renames (fst out)) <= List.length (listed (fst out)))%nat
  /\ (forall src dst,
        In (src, dst) (renames (fst out)) ->
        In src (listed (fst out))
        /\ is_already_formatted U (name src) = false
        /\ exists s,
             dst = joinpath (parent src)
                     (s ++ u "-" ++ to_kebab_case U (name src) ++ u ".pdf")).
Proof.
  intros out.
  destruct (batch_shape U environ W directory)
    as [(e' & t0 & R & c & _ & _ & F)
       |[(setup & _ & F & L & E)
        |(setup & found & sel & local & client & loop
          & _ & F & _ & S & E & Rn)]];
    fold out in F || fold out in E.
  - destruct (setup_events_silent _ F) as (_ & Rs & _).
    rewrite Rs. split; [simpl; lia | intros ? ? []].
  - destruct (setup_events_silent _ F) as (_ & Rs & _).
    rewrite E, renames_app, Rs. split; [simpl; lia | intros ? ? []].
  - destruct (setup_events_silent _ F) as (_ & Rs & _).
    destruct (loop_account U environ W local client (listed setup)
                (setup ++ [Printed found] ++ sel))
      as (t & Et & _ & Lt & Nt & Rt).
    rewrite Rn in Et. injection Et as Et. apply app_inv_head in Et. subst t.
    assert (X : renames (fst out) = renames loop
                /\ listed (fst out) = listed setup).
    { rewrite E, !renames_app, !listed_app, Rs, Lt.
      destruct S as [->|(url & a & ->)]; cbn; now rewrite !app_nil_r. }
    destruct X as [-> ->]. split; [exact Nt|].
    intros src dst Hin. destruct (Rt src dst Hin) as (I & Fm & s & ->).
    split; [assumption|]. split; [assumption|]. now exists s.
Qed.

(** ** More on [to_kebab_case] *)

Lemma re_sub_char_keeps s :
  has_non_hyphen (re_sub_char (fun c => negb (is_alnum c)) (u "-") s)
  = existsb is_alnum s.
Proof.
  unfold has_non_hyphen. induction s as [|c s IH]; simpl; [reflexivity|].
  rewrite existsb_app, IH.
  destruct (is_alnum c) eqn:A; simpl; [|reflexivity].
  now rewrite (alnum_not_hyphen _ A).
Qed.

Lemma to_kebab_case_keeps U f :
  has_non_hyphen (to_kebab_case U f) = existsb is_alnum (fst (splitext f)).
Proof.
  unfold to_kebab_case, re_sub_plus.
  rewrite lower_ascii.
  2:{ apply strip_shape;
        [ apply re_sub_plus_kebab, re_sub_char_kebab
        | apply re_sub_plus_shape ]. }
  unfold strip.
  now rewrite map_lower_keeps, rstrip_keeps, lstrip_keeps, re_sub_plus_keeps,
    re_sub_char_keeps.
Qed.

(** X7. The slug of a filename is the empty string exactly when the name
    without its extension holds no ASCII letter and no digit. *)
Theorem to_kebab_case_empty_iff (U : unicode) (f : str) :
  to_kebab_case U f = [] <-> existsb is_alnum (fst (splitext f)) = false.
Proof.
  rewrite <- (to_kebab_case_keeps U f). split.
  - now intros ->.
  - intros H. destruct (to_kebab_case_shape U f) as (_ & _ & S & _).
    destruct (to_kebab_case U f) as [|c k]; [reflexivity|].
    simpl in S. unfold has_non_hyphen in H. simpl in H.
    rewrite S in H. discriminate.
Qed.

Definition no_dot (s : str) : bool := forallb (fun c => negb (c =? ch ".")%N) s.

Lemma splitext_extension b e :
  no_sep b = true -> existsb (fun c => negb (c =? ch ".")%N) b = true ->
  no_dot e = true -> no_sep e = true ->
  splitext (b ++ ch "." :: e) = (b, ch "." :: e).
Proof.
  intros Sb Nb De Se. unfold splitext.
  rewrite (rfind_absent (ch "/")).
  2:{ rewrite forallb_app. cbn [forallb].
      unfold no_sep in Sb, Se. now rewrite Sb, Se. }
  assert (R : rfind (ch ".") (ch "." :: e) = 0%Z).
  { cbn [rfind]. rewrite (rfind_absent _ _ De). reflexivity. }
  rewrite rfind_app by (rewrite R; lia). rewrite R, Z.add_0_r.
  replace (-1 <? Z.of_nat (List.length b))%Z with true
    by (symmetry; apply Z.ltb_lt; lia).
  unfold slice. rewrite Nat2Z.id, firstn_length_app, skipn_length_app.
  change (Z.to_nat (-1 + 1)) with 0%nat. cbn [skipn].
  now rewrite Nb.
Qed.

(** X8. The slug does not depend on the extension: for a name [b] without a
    slash that holds a character other than the dot, and any extension [e]
    without dot and slash, [b.e] has the slug of [b.pdf].  So [x.pdf] and
    [x.PDF] of one directory get the same new name. *)
Theorem to_kebab_case_ignores_extension (U : unicode) (b e : str) :
  no_sep b = true ->
  existsb (fun c => negb (c =? ch ".")%N) b = true ->
  no_dot e = true -> no_sep e = true ->
  to_kebab_case U (b ++ u "." ++ e) = to_kebab_case U (b ++ u ".pdf").
Proof.
  intros Sb Nb De Se. unfold to_kebab_case.
  change (b ++ u "." ++ e) with (b ++ ch "." :: e).
  change (b ++ u ".pdf") with (b ++ ch "." :: u "pdf").
  now rewrite !splitext_extension.
Qed.

Lemma to_kebab_case_ignores_extension_witness :
  to_kebab_case ascii_tables (u "Invoice March" ++ u "." ++ u "PDF")
  = to_kebab_case ascii_tables (u "Invoice March" ++ u ".pdf").
Proof.
  apply to_kebab_case_ignores_extension; vm_compute; reflexivity.
Defined.

(** ** Where a renamed file goes *)

Lemma parse_path_absolute s :
  root (parse_path (ch "/" :: s)) <> [].
Proof.
  unfold parse_path, splitroot.
  change (sep_at 0 (ch "/" :: s)) with true. cbn [negb].
  destruct (negb (sep_at 1 (ch "/" :: s)) || sep_at 2 (ch "/" :: s));
    cbn [root]; [discriminate|].
  destruct s; discriminate.
Qed.

(** X9. The target of a rename follows the date string.  A date without a
    slash keeps the file in its directory, under the name
    [date-slug.pdf]; a date that starts with a slash makes the target an
    absolute path that no longer depends on the directory of the file. *)
Theorem rename_target_directory (U : unicode) (pdf_path : Path) :
  (forall s,
     no_sep s = true ->
     parent (new_path U pdf_path s) = parent pdf_path
     /\ name (new_path U pdf_path s)
        = s ++ u "-" ++ to_kebab_case U (name pdf_path) ++ u ".pdf")
  /\ (forall s,
        new_path U pdf_path (ch "/" :: s)
        = parse_path ((ch "/" :: s) ++ u "-"
                      ++ to_kebab_case U (name pdf_path) ++ u ".pdf")
        /\ root (new_path U pdf_path (ch "/" :: s)) <> []).
Proof.
  split.
  - intros s Ss. unfold new_path, new_filename.
    set (k := to_kebab_case U (name pdf_path)).
    assert (Sk : no_sep k = true).
    { unfold no_sep.
      apply (forallb_impl _ _ _ slug_char_no_sep
               (proj1 (to_kebab_case_shape U (name pdf_path)))). }
    destruct (@name_joinpath (parent pdf_path) (s ++ u "-" ++ k ++ u ".pdf"))
      as [Nm Pr]; [| | |auto].
    + destruct s; discriminate.
    + intros E. apply (f_equal (@List.length N)) in E.
      rewrite !length_app in E. simpl in E. lia.
    + unfold no_sep in *. rewrite !forallb_app, Ss, Sk. reflexivity.
  - intros s. unfold new_path, new_filename, joinpath.
    pose proof (parse_path_absolute
                  (s ++ u "-" ++ to_kebab_case U (name pdf_path) ++ u ".pdf"))
      as R.
    change ((ch "/" :: s) ++ u "-" ++ to_kebab_case U (name pdf_path) ++ u ".pdf")
      with (ch "/" :: s ++ u "-" ++ to_kebab_case U (name pdf_path) ++ u ".pdf").
    destruct (root (parse_path
                (ch "/" :: s ++ u "-" ++ to_kebab_case U (name pdf_path)
                 ++ u ".pdf"))) eqn:E; [congruence|].
    split; [reflexivity|]. rewrite E. discriminate.
Qed.

(** ** What [is_already_formatted] accepts *)

Lemma lang_cat_inv r1 r2 s :
  lang (Cat r1 r2) s -> exists s1 s2, s = s1 ++ s2 /\ lang r1 s1 /\ lang r2 s2.
Proof. intros H. inversion H; subst. eauto. Qed.

Lemma lang_eps_inv s : lang Eps s -> s = [].
Proof. intros H. now inversion H. Qed.

Lemma lang_sym_inv p s : lang (Sym p) s -> exists c, s = [c] /\ p c = true.
Proof. intros H. inversion H; subst. eauto. Qed.

Lemma lang_lit_inv t : forall s, lang (Lit t) s -> s = t.
Proof.
  induction t as [|c t IH]; intros s H; simpl in H.
  - now apply lang_eps_inv.
  - apply lang_cat_inv in H. destruct H as (s1 & s2 & -> & H1 & H2).
    apply lang_sym_inv in H1. destruct H1 as (c' & -> & E).
    apply N.eqb_eq in E. subst c'. simpl. f_equal. now apply IH.
Qed.

Lemma lang_star_sym_inv p s : lang (Star (Sym p)) s -> forallb p s = true.
Proof.
  intros H. remember (Star (Sym p)) as r eqn:E.
  induction H; try discriminate; [reflexivity|].
  injection E as ->. apply lang_sym_inv in H. destruct H as (c & -> & Hc).
  simpl. rewrite Hc. auto.
Qed.

Lemma lang_plus_sym_inv p s :
  lang (Plus (Sym p)) s -> s <> [] /\ forallb p s = true.
Proof.
  intros H. apply lang_cat_inv in H. destruct H as (s1 & s2 & -> & H1 & H2).
  apply lang_sym_inv in H1. destruct H1 as (c & -> & Hc).
  apply lang_star_sym_inv in H2. simpl. rewrite Hc, H2.
  split; [discriminate | reflexivity].
Qed.

Lemma lang_rep_sym_inv p n : forall s,
  lang (Rep n (Sym p)) s -> List.length s = n /\ forallb p s = true.
Proof.
  induction n as [|n IH]; intros s H; simpl in H.
  - apply lang_eps_inv in H. subst. auto.
  - apply lang_cat_inv in H. destruct H as (s1 & s2 & -> & H1 & H2).
    apply lang_sym_inv in H1. destruct H1 as (c & -> & Hc).
    destruct (IH _ H2) as [L F]. simpl. now rewrite L, Hc, F.
Qed.

Lemma starts_hyphen_app a b :
  a <> [] -> starts_hyphen (a ++ b) = starts_hyphen a.
Proof. destruct a; [congruence | reflexivity]. Qed.

Lemma ends_hyphen_app a b :
  b <> [] -> ends_hyphen (a ++ b) = ends_hyphen b.
Proof.
  intros Hb. induction a as [|x a IH]; [reflexivity|].
  simpl. destruct (a ++ b) eqn:E; [|exact IH].
  apply app_eq_nil in E. destruct E. congruence.
Qed.

Lemma alnum_word_shape a :
  forallb is_lower_alnum a = true ->
  forallb slug_char a = true /\ no_double_hyphen a = true
  /\ starts_hyphen a = false /\ ends_hyphen a = false.
Proof.
  induction a as [|c a IH]; simpl; [auto|].
  rewrite andb_true_iff. intros [Hc Ha].
  destruct (IH Ha) as (F & N & S & E).
  pose proof (lower_alnum_not_hyphen _ Hc) as Nh.
  unfold slug_char at 1. rewrite Hc, F, N, Nh. simpl.
  repeat split. destruct a; [reflexivity | exact E].
Qed.

(** A word, a hyphen, a slug: a slug again. *)
Lemma slug_shape_cons_word a z :
  a <> [] -> forallb is_lower_alnum a = true ->
  z <> [] -> slug_shape z ->
  slug_shape (a ++ ch "-" :: z).
Proof.
  intros Ha Fa Hz (Fz & Nz & Sz & Ez).
  destruct (alnum_word_shape _ Fa) as (F & N & S & E).
  unfold slug_shape. repeat split.
  - rewrite forallb_app, F. simpl. now rewrite Fz.
  - clear Ha S E F. induction a as [|c a IH].
    + simpl. now rewrite Sz, Nz.
    + simpl in Fa. apply andb_true_iff in Fa. destruct Fa as [Hc Fa].
      simpl in N. apply andb_true_iff in N. destruct N as [_ N].
      change ((c :: a) ++ ch "-" :: z) with (c :: (a ++ ch "-" :: z)).
      cbn [no_double_hyphen].
      rewrite (lower_alnum_not_hyphen _ Hc), (IH Fa N). reflexivity.
  - now rewrite starts_hyphen_app.
  - rewrite ends_hyphen_app by discriminate.
    destruct z; [congruence | exact Ez].
Qed.

Lemma lang_slug_inv s p :
  lang (Star (Cat (Plus (Sym is_lower_alnum)) (Lit (u "-")))) s ->
  p <> [] -> forallb is_lower_alnum p = true ->
  slug_shape (s ++ p).
Proof.
  intros H Hp Fp.
  remember (Star (Cat (Plus (Sym is_lower_alnum)) (Lit (u "-")))) as r eqn:E.
  induction H; try discriminate.
  - simpl. now apply alnum_word_shape.
  - injection E as ->. specialize (IHlang2 eq_refl).
    apply lang_cat_inv in H. destruct H as (a & b & -> & Ha & Hb).
    apply lang_plus_sym_inv in Ha. destruct Ha as [Na Fa].
    apply (lang_lit_inv (u "-")) in Hb. subst b.
    rewrite <- !app_assoc. change (u "-" ++ s2 ++ p) with (ch "-" :: (s2 ++ p)).
    apply slug_shape_cons_word; auto.
    intros X. apply app_eq_nil in X. destruct X. congruence.
Qed.

(** X10. [is_already_formatted] accepts a filename exactly when its lowered
    form is six decimal digits, a hyphen, a non-empty slug (characters of
    [[a-z0-9-]], no hyphen at either end, no doubled hyphen) and [.pdf],
    with at most one line feed after it. *)
Theorem is_already_formatted_iff (U : unicode) (filename : str) :
  is_already_formatted U filename = true <->
  exists d y nl,
    lower U filename = d ++ u "-" ++ y ++ u ".pdf" ++ nl
    /\ List.length d = 6%nat
    /\ forallb (is_decimal U) d = true
    /\ y <> [] /\ slug_shape y
    /\ (nl = [] \/ nl = LF).
Proof.
  unfold is_already_formatted. rewrite re_match_lang. unfold pattern. split.
  - intros H.
    apply lang_cat_inv in H. destruct H as (s0 & r0 & E0 & H0 & H).
    apply lang_eps_inv in H0. subst s0.
    apply lang_cat_inv in H. destruct H as (d & r1 & E1 & Hd & H).
    apply lang_cat_inv in H. destruct H as (hy & r2 & E2 & Hh & H).
    apply lang_cat_inv in H. destruct H as (st & r3 & E3 & Hs & H).
    apply lang_cat_inv in H. destruct H as (p & r4 & E4 & Hp & H).
    apply lang_cat_inv in H. destruct H as (ex & nl & E5 & He & Hn).
    apply lang_rep_sym_inv in Hd. destruct Hd as [Ld Fd].
    apply lang_lit_inv in Hh. apply lang_lit_inv in He.
    apply lang_plus_sym_inv in Hp. destruct Hp as [Np Fp].
    exists d, (st ++ p), nl. subst. simpl app at 1.
    rewrite <- !app_assoc. repeat split; auto.
    + intros X. apply app_eq_nil in X. destruct X. congruence.
    + now apply lang_slug_inv.
    + now apply lang_slug_inv.
    + now apply lang_slug_inv.
    + now apply lang_slug_inv.
    + inversion Hn; subst.
      * left. now apply lang_eps_inv.
      * right. match goal with
               | X : lang (Sym _) _ |- _ =>
                   apply lang_sym_inv in X; destruct X as (c & -> & Ec)
               end.
        apply N.eqb_eq in Ec. now subst c.
  - intros (d & y & nl & -> & Ld & Fd & Ny & Sy & Hn).
    pose proof (lang_slug Ny Sy) as L.
    apply lang_cat_inv in L. destruct L as (s1 & s2 & -> & L1 & L2).
    replace (d ++ u "-" ++ (s1 ++ s2) ++ u ".pdf" ++ nl)
      with ([] ++ d ++ u "-" ++ s1 ++ s2 ++ u ".pdf" ++ nl)
      by (simpl; rewrite <- !app_assoc; reflexivity).
    constructor; [constructor|].
    constructor; [rewrite <- Ld; now apply lang_rep_sym|].
    constructor; [apply lang_lit|].
    constructor; [assumption|].
    constructor; [assumption|].
    constructor; [apply lang_lit|].
    destruct Hn as [->| ->].
    + apply lang_alt_l. constructor.
    + apply lang_alt_r. constructor. reflexivity.
Qed.

(** ** The date the local variant returns *)

Definition starts_with (P : char -> bool) (s : str) : bool :=
  match s with
  | c :: _ => P c
  | [] => false
  end.

Fixpoint ends_with (P : char -> bool) (s : str) : bool :=
  match s with
  | [] => false
  | [c] => P c
  | _ :: t => ends_with P t
  end.

Lemma lstrip_starts_with P s : starts_with P (lstrip P s) = false.
Proof.
  induction s as [|c s IH]; simpl; [reflexivity|].
  destruct (P c) eqn:E; [exact IH | exact E].
Qed.

Lemma rstrip_ends_with P s : ends_with P (rstrip P s) = false.
Proof.
  induction s as [|c s IH]; simpl; [reflexivity|].
  destruct (rstrip P s) as [|d r] eqn:E.
  - destruct (P c) eqn:Ec; simpl; [reflexivity | exact Ec].
  - exact IH.
Qed.

Lemma rstrip_starts_with P s :
  starts_with P s = false -> starts_with P (rstrip P s) = false.
Proof.
  destruct s as [|c s]; cbn [rstrip starts_with]; [auto|]. intros H.
  destruct (rstrip P s); [rewrite H|]; cbn [starts_with]; assumption.
Qed.

(** X11. The date [ask_ollama_for_date] returns is the [response] field of
    the answer to the one POST to [OLLAMA_API_URL + "/generate"], with the
    white space at both ends removed: it neither starts nor ends with a
    white-space character. *)
Theorem ask_ollama_for_date_stripped (U : unicode)
    (environ : str -> option str) (W : world) (text : str)
    (model : option str) (h h' : list event) (s : str) :
  run W (ask_ollama_for_date U environ text model) h = (h', inl s) ->
  starts_with (is_space U) s = false
  /\ ends_with (is_space U) s = false
  /\ exists url response field,
       environ (u "OLLAMA_API_URL") = Some url
       /\ W _ h (requests_post (url ++ u "/generate") model
                   (ollama_prompt text) false) = inl response
       /\ json_response response = inl field
       /\ s = strip (is_space U) field
       /\ h' = h ++ [Called (requests_post (url ++ u "/generate") model
                               (ollama_prompt text) false) (inl response)].
Proof.
  unfold ask_ollama_for_date, getenv.
  destruct (environ (u "OLLAMA_API_URL")) as [url|];
    cbn [getenv_plus bind do run]; [|discriminate].
  destruct (W Response h
              (requests_post (url ++ u "/generate") model
                 (ollama_prompt text) false)) as [response|e] eqn:Ep;
    cbn [bind do run of_result]; [|discriminate].
  destruct (json_response response) as [field|e] eqn:Ej;
    cbn [bind do run of_result]; [|discriminate].
  intros H. injection H as <- <-.
  split; [|split].
  - unfold strip. apply rstrip_starts_with, lstrip_starts_with.
  - unfold strip. apply rstrip_ends_with.
  - exists url, response, field. auto.
Qed.

Lemma ask_ollama_for_date_stripped_witness :
  snd (run ollama_world
         (ask_ollama_for_date ascii_tables ollama_environ
            (u "Invoice March 15, 2025") (Some (u "llama3"))) [])
  = inl (u "250315")
  /\ starts_with (is_space ascii_tables) (u "250315") = false.
Proof.
  set (p := ask_ollama_for_date ascii_tables ollama_environ
              (u "Invoice March 15, 2025") (Some (u "llama3"))).
  assert (H : run ollama_world p [] = (fst (run ollama_world p []), inl (u "250315")))
    by (vm_compute; reflexivity).
  split; [rewrite H; reflexivity|].
  exact (proj1 (@ask_ollama_for_date_stripped ascii_tables ollama_environ
                  ollama_world (u "Invoice March 15, 2025")
                  (Some (u "llama3")) [] _ _ H)).
Defined.

(** ** A file whose date cannot be had *)



(** ** A cloud answer without content *)




(** ** The data sent to the cloud backend *)

Lemma b64_digit_in n : (n < 64)%N -> In (b64_digit n) b64_alphabet.
Proof.
  intros H. unfold b64_digit. apply nth_In.
  change (List.length b64_alphabet) with 64%nat. lia.
Qed.

Definition is_byte (b : N) : Prop := (b < 256)%N.

Definition b64_char (c : N) : Prop := In c b64_alphabet \/ c = ch "=".

Lemma b64_quads a b c :
  is_byte a -> is_byte b -> is_byte c ->
  b64_char (b64_digit (a / 4))
  /\ b64_char (b64_digit ((a mod 4) * 16))
  /\ b64_char (b64_digit ((a mod 4) * 16 + b / 16))
  /\ b64_char (b64_digit ((b mod 16) * 4))
  /\ b64_char (b64_digit ((b mod 16) * 4 + c / 64))
  /\ b64_char (b64_digit (c mod 64)).
Proof.
  unfold is_byte. intros Ha Hb Hc.
  assert (A4 : (a / 4 < 64)%N) by (apply N.Div0.div_lt_upper_bound; lia).
  assert (B16 : (b / 16 < 16)%N) by (apply N.Div0.div_lt_upper_bound; lia).
  assert (C64 : (c / 64 < 4)%N) by (apply N.Div0.div_lt_upper_bound; lia).
  assert (Am : (a mod 4 < 4)%N) by (apply N.mod_lt; lia).
  assert (Bm : (b mod 16 < 16)%N) by (apply N.mod_lt; lia).
  assert (Cm : (c mod 64 < 64)%N) by (apply N.mod_lt; lia).
  repeat split; left; apply b64_digit_in; lia.
Qed.

Ltac b64_chars :=
  repeat (apply Forall_cons; [first [assumption | right; reflexivity]|]);
  first [apply Forall_nil | assumption].

Lemma b64encode_shape_upto n : forall data,
  (List.length data <= n)%nat -> Forall is_byte data ->
  List.length (b64encode data) = (4 * ((List.length data + 2) / 3))%nat
  /\ Forall b64_char (b64encode data).
Proof.
  induction n as [|n IH]; intros data L F.
  - destruct data; [|simpl in L; lia]. split; [reflexivity | constructor].
  - destruct data as [|a [|b [|c rest]]].
    + split; [reflexivity | constructor].
    + inversion F as [|? ? Ha _]; subst.
      destruct (b64_quads Ha Ha Ha) as (Q1 & Q2 & _).
      split; [reflexivity|].
      cbn [b64encode]. b64_chars.
    + inversion F as [|? ? Ha F1]; subst.
      inversion F1 as [|? ? Hb _]; subst.
      destruct (b64_quads Ha Hb Hb) as (Q1 & _ & Q3 & Q4 & _).
      split; [reflexivity|].
      cbn [b64encode]. b64_chars.
    + inversion F as [|? ? Ha F1]; subst.
      inversion F1 as [|? ? Hb F2]; subst.
      inversion F2 as [|? ? Hc F3]; subst.
      destruct (b64_quads Ha Hb Hc) as (Q1 & _ & Q3 & _ & Q5 & Q6).
      destruct (IH rest) as [Lr Fr]; [simpl in L; lia | assumption |].
      cbn [b64encode app List.length]. rewrite Lr. split.
      * replace (S (S (S (List.length rest))) + 2)%nat
          with ((List.length rest + 2) + 1 * 3)%nat by lia.
        rewrite Nat.div_add by lia. lia.
      * b64_chars.
Qed.

(** X14. What [load_pdf_data_for_remote_ai] returns for a file of bytes is
    base64 text: four characters for every three bytes, padded to a full
    group, all of them letters, digits, [+], [/] or the padding [=]. *)
Theorem load_pdf_data_is_base64 (W : world) (pdf_file_path : str)
    (h h' : list event) (s : str) (data : list N) :
  W _ h (read_binary pdf_file_path) = inl data ->
  Forall is_byte data ->
  run W (load_pdf_data_for_remote_ai pdf_file_path) h = (h', inl s) ->
  s = b64encode data
  /\ List.length s = (4 * ((List.length data + 2) / 3))%nat
  /\ Forall b64_char s.
Proof.
  intros Er F R. unfold load_pdf_data_for_remote_ai in R.
  cbn [bind do run] in R. rewrite Er in R. cbn [bind do run] in R.
  injection R as _ <-.
  split; [reflexivity|]. now apply (b64encode_shape_upto (n := List.length data)).
Qed.

Lemma load_pdf_data_is_base64_witness :
  snd (run (cloud_world [] (u "250315"))
         (load_pdf_data_for_remote_ai (u "/inv/a.pdf")) [])
  = inl (u "JVBERg==").
Proof.
  assert (R : run (cloud_world [] (u "250315"))
                (load_pdf_data_for_remote_ai (u "/inv/a.pdf")) []
              = (fst (run (cloud_world [] (u "250315"))
                        (load_pdf_data_for_remote_ai (u "/inv/a.pdf")) []),
                 inl (u "JVBERg==")))
    by (vm_compute; reflexivity).
  assert (F : Forall is_byte [37; 80; 68; 70]%N)
    by (repeat (apply Forall_cons; [reflexivity|]); apply Forall_nil).
  destruct (@load_pdf_data_is_base64 (cloud_world [] (u "250315"))
              (u "/inv/a.pdf") [] _ _ [37; 80; 68; 70]%N eq_refl F R)
    as (E & _).
  rewrite R. reflexivity.
Defined.

(** ** A directory that is already processed *)







